(** * Gita multilingual reader: daily quote selector and tanpura drone

    A shallow embedding of the two stateful hooks of the application,
    [useDailyQuote] (src/hooks/useDailyQuote.ts) and [useTanpuraDrone]
    (src/hooks/useTanpuraDrone.ts), together with [fetchLocalized]
    (src/components/GitaExperience.tsx) and the component's own logic:
    the choice of a voice, the chapter and section shown, the narration
    handlers and the [voiceschanged] effect.

    The browser is modelled as an explicit world that the hooks' code
    threads through a state-and-exception monad: the clock and the time
    zone, [window.localStorage], [Math.random], and the Web Audio graph.
    JavaScript numbers that are not integers (frequencies, gains, random
    draws) are modelled as exact rationals: the statements about them are
    about the values the program's expressions denote, not about binary64
    rounding. *)

From Stdlib Require Import ZArith QArith Qround String Ascii List Bool Lia Lqa.
From stdpp Require Import base gmap strings list pretty.

Open Scope Z_scope.

(** ** Completions: a state monad with JavaScript exceptions *)

Inductive Exn :=
  | SecurityError
  | QuotaExceededError
  | SyntaxError
  | TypeError
  | RangeError
  | InvalidStateError.

Inductive Completion (A : Type) :=
  | Normal (a : A)
  | Throw (e : Exn).

Arguments Normal {A} a.
Arguments Throw {A} e.

(** A computation over a world [W]: it ends normally with a value or
    abruptly with an exception, and in both cases leaves a world behind. *)
Definition Eff (W A : Type) : Type := W -> Completion A * W.

Definition ret {W A} (a : A) : Eff W A := fun w => (Normal a, w).

Definition bind {W A B} (c : Eff W A) (k : A -> Eff W B) : Eff W B :=
  fun w =>
    match c w with
    | (Normal a, w') => k a w'
    | (Throw e, w') => (Throw e, w')
    end.

Definition throw {W A} (e : Exn) : Eff W A := fun w => (Throw e, w).

(** [try { c } catch { h }]: the effects [c] had before it threw stay. *)
Definition try_catch {W A} (c : Eff W A) (h : Exn -> Eff W A) : Eff W A :=
  fun w =>
    match c w with
    | (Normal a, w') => (Normal a, w')
    | (Throw e, w') => h e w'
    end.

Definition get {W} : Eff W W := fun w => (Normal w, w).
Definition modify {W} (f : W -> W) : Eff W unit := fun w => (Normal tt, f w).

Notation "'do' x <- c ; k" := (bind c (fun x => k))
  (at level 10, x name, c at level 100, k at level 200).
Notation "c ;; k" := (bind c (fun _ => k))
  (at level 100, k at level 200, right associativity).

(** [arr.forEach(f)] for an effectful callback. *)
Fixpoint forEach {W A} (f : A -> Eff W unit) (l : list A) : Eff W unit :=
  match l with
  | [] => ret tt
  | x :: l' => f x ;; forEach f l'
  end.

(** ** The ECMAScript [Date] operations the selector uses *)

Module JsDate.

Definition msPerDay : Z := 86400000.
Definition msPerMinute : Z := 60000.

Definition Day (t : Z) : Z := t / msPerDay.
Definition TimeWithinDay (t : Z) : Z := t mod msPerDay.

(** Civil date (year, month 0..11, day of month 1..31) of a day number
    counted from 1970-01-01, in the proleptic Gregorian calendar. *)
Definition civil_of_day (d : Z) : Z * Z * Z :=
  let z := d + 719468 in
  let era := z / 146097 in
  let doe := z - era * 146097 in
  let yoe := (doe - doe / 1460 + doe / 36524 - doe / 146096) / 365 in
  let doy := doe - (365 * yoe + yoe / 4 - yoe / 100) in
  let mp := (5 * doy + 2) / 153 in
  let dom := doy - (153 * mp + 2) / 5 + 1 in
  let mon := if mp <? 10 then mp + 3 else mp - 9 in
  let y := yoe + era * 400 + (if mon <=? 2 then 1 else 0) in
  (y, mon - 1, dom).

Definition YearFromTime (t : Z) : Z := (civil_of_day (Day t)).1.1.
Definition MonthFromTime (t : Z) : Z := (civil_of_day (Day t)).1.2.
Definition DateFromTime (t : Z) : Z := (civil_of_day (Day t)).2.

(** Day number of the first day of month [mon] (1..12) of year [y]. *)
Definition day_of_civil (y mon dom : Z) : Z :=
  let y' := if mon <=? 2 then y - 1 else y in
  let era := y' / 400 in
  let yoe := y' - era * 400 in
  let doy := (153 * (if 2 <? mon then mon - 3 else mon + 9) + 2) / 5 + dom - 1 in
  let doe := yoe * 365 + yoe / 4 - yoe / 100 + doy in
  era * 146097 + doe - 719468.

(** [MakeDay(year, month, date)]: months outside 0..11 carry into the
    year, the day of the month is an offset from the first of the month. *)
Definition MakeDay (year month date : Z) : Z :=
  let ym := year + month / 12 in
  let mn := month mod 12 in
  day_of_civil ym (mn + 1) 1 + date - 1.

(** A fixed-offset time zone, [tz] minutes east of UTC
    ([tz = - getTimezoneOffset()]). *)
Definition LocalTime (tz t : Z) : Z := t + tz * msPerMinute.
Definition UTC (tz t : Z) : Z := t - tz * msPerMinute.

Definition getFullYear (tz t : Z) : Z := YearFromTime (LocalTime tz t).
Definition getMonth (tz t : Z) : Z := MonthFromTime (LocalTime tz t).
Definition getDate (tz t : Z) : Z := DateFromTime (LocalTime tz t).

(** [new Date(year, month, date)]: local midnight of that civil date, as
    a time value; years 0..99 mean 1900..1999. *)
Definition Date_ymd (tz year month date : Z) : Z :=
  let yr := if (0 <=? year) && (year <=? 99) then 1900 + year else year in
  UTC tz (MakeDay yr month date * msPerDay).

Definition digit (n : Z) : ascii := ascii_of_nat (48 + Z.to_nat (n mod 10)).

(** [n] in decimal on exactly [width] digits (the low ones). *)
Fixpoint pad (width : nat) (n : Z) : string :=
  match width with
  | O => EmptyString
  | S w => pad w (n / 10) +:+ String (digit n) EmptyString
  end.

Definition iso_year (y : Z) : string :=
  if (0 <=? y) && (y <=? 9999) then pad 4 y
  else (if y <? 0 then "-" else "+") +:+ pad 6 (Z.abs y).

Definition iso_date (y m d : Z) : string :=
  iso_year y +:+ "-" +:+ pad 2 (m + 1) +:+ "-" +:+ pad 2 d.

(** [toISOString()]: the UTC fields of the time value. *)
Definition toISOString (t : Z) : string :=
  let tod := TimeWithinDay t in
  iso_date (YearFromTime t) (MonthFromTime t) (DateFromTime t)
  +:+ "T" +:+ pad 2 (tod / 3600000) +:+ ":" +:+ pad 2 (tod / 60000 mod 60)
  +:+ ":" +:+ pad 2 (tod / 1000 mod 60) +:+ "." +:+ pad 3 (tod mod 1000) +:+ "Z".

(** [s.slice(0, n)]. *)
Definition slice0 (n : nat) (s : string) : string := substring 0 n s.

End JsDate.

(** ** JSON values and JavaScript values *)

#[warnings="-register-all"]
Inductive json :=
  | JNull
  | JBool (b : bool)
  | JNum (mantissa exponent : Z)   (* mantissa * 10 ^ exponent *)
  | JStr (s : string)
  | JArr (elems : list json)
  | JObj (props : list (string * json)).

(** What an expression of the hook can evaluate to: [undefined], or a
    value that JSON can carry ([null], booleans, numbers, strings, arrays
    and plain objects). *)
Inductive jsval :=
  | Undefined
  | Val (j : json).

(** Own property of a plain object; a later duplicate key wins, as in
    [JSON.parse]. *)
Fixpoint obj_get (props : list (string * json)) (k : string) : jsval :=
  match props with
  | [] => Undefined
  | (k', v) :: rest =>
      match obj_get rest k with
      | Undefined => if String.eqb k' k then Val v else Undefined
      | found => found
      end
  end.

(** [v.k] for the two property names the selector reads, [date] and
    [quoteId]: no built-in prototype defines them, so only plain objects
    have them; reading a property of [null] is a TypeError. *)
Definition member (v : json) (k : string) : Completion jsval :=
  match v with
  | JNull => Throw TypeError
  | JObj props => Normal (obj_get props k)
  | _ => Normal Undefined
  end.

(** [v?.k]. *)
Definition opt_member (v : json) (k : string) : jsval :=
  match v with
  | JObj props => obj_get props k
  | _ => Undefined
  end.

(** [x === s] for a string [s]. *)
Definition strict_eq_string (x : jsval) (s : string) : bool :=
  match x with
  | Val (JStr s') => String.eqb s' s
  | _ => false
  end.

(** Truthiness of a string: [if (raw)]. *)
Definition truthy_string (s : string) : bool :=
  match s with
  | EmptyString => false
  | String _ _ => true
  end.

(** ** Static content: languages and quotes (src/data/content) *)

(** The language codes: the keys of [voiceHints], a
    [Record<Language, string[]>], in src/components/GitaExperience.tsx. *)
Inductive Language := en | hi | ml | ta | kn | te | bn | ar.

(** The property name a language selects in a localized field. *)
Definition lang_key (l : Language) : string :=
  match l with
  | en => "en" | hi => "hi" | ml => "ml" | ta => "ta"
  | kn => "kn" | te => "te" | bn => "bn" | ar => "ar"
  end.

(** A localized field is an object keyed by language code; a key can be
    missing at run time, which is what the [??] fallbacks are for. *)
Record Quote := {
  id : string;
  text : gmap string string;
  source : gmap string string;
}.

(** [value[language] ?? value.en]; [None] is [undefined]. *)
Definition fetchLocalized (value : gmap string string) (language : Language)
  : option string :=
  match value !! lang_key language with
  | Some v => Some v
  | None => value !! "en"%string
  end.

(** ** The world of the quote selector *)

Inductive StorageCall :=
  | GetItem (key : string)
  | SetItem (key value : string)
  | RandomDraw.

Record World := {
  has_window : bool;          (* typeof window !== "undefined" *)
  now : Z;                    (* time value of [new Date()] *)
  tz : Z;                     (* minutes east of UTC *)
  storage_available : bool;   (* reaching window.localStorage does not throw *)
  storage_writable : bool;    (* setItem does not throw (quota) *)
  items : gmap string string; (* the stored key/value pairs *)
  rand : nat -> Q;            (* the values Math.random() will return *)
  rand_pos : nat;             (* how many were drawn *)
  calls : list StorageCall;   (* storage and random calls made, oldest first *)
}.

Definition log (c : StorageCall) (w : World) : World :=
  {| has_window := has_window w; now := now w; tz := tz w;
     storage_available := storage_available w;
     storage_writable := storage_writable w; items := items w;
     rand := rand w; rand_pos := rand_pos w; calls := calls w ++ [c] |}.

Definition set_items (m : gmap string string) (w : World) : World :=
  {| has_window := has_window w; now := now w; tz := tz w;
     storage_available := storage_available w;
     storage_writable := storage_writable w; items := m;
     rand := rand w; rand_pos := rand_pos w; calls := calls w |}.

Definition set_now (t : Z) (w : World) : World :=
  {| has_window := has_window w; now := t; tz := tz w;
     storage_available := storage_available w;
     storage_writable := storage_writable w; items := items w;
     rand := rand w; rand_pos := rand_pos w; calls := calls w |}.

Definition next_rand (w : World) : World :=
  {| has_window := has_window w; now := now w; tz := tz w;
     storage_available := storage_available w;
     storage_writable := storage_writable w; items := items w;
     rand := rand w; rand_pos := S (rand_pos w); calls := calls w |}.

(** [window.localStorage.getItem(key)]. *)
Definition localStorage_getItem (key : string) : Eff World (option string) :=
  fun w =>
    if storage_available w then (Normal (items w !! key), log (GetItem key) w)
    else (Throw SecurityError, w).

(** [window.localStorage.setItem(key, value)]. *)
Definition localStorage_setItem (key value : string) : Eff World unit :=
  fun w =>
    if storage_available w then
      if storage_writable w then
        (Normal tt, set_items (<[key := value]> (items w)) (log (SetItem key value) w))
      else (Throw QuotaExceededError, log (SetItem key value) w)
    else (Throw SecurityError, w).

(** [Math.random()]. *)
Definition Math_random : Eff World Q :=
  fun w => (Normal (rand w (rand_pos w)), next_rand (log RandomDraw w)).

(** [arr[i]] for a number [i]: [undefined] outside the array. *)
Definition index {A} (l : list A) (i : Z) : option A :=
  if i <? 0 then None else l !! Z.to_nat i.

(** ** The daily quote selector (src/hooks/useDailyQuote.ts) *)

Definition STORAGE_KEY : string := "gita-daily-quote".

(** The object literal [{ date, quoteId }] the selector persists. *)
Definition record_of (date quoteId : string) : json :=
  JObj [("date"%string, JStr date); ("quoteId"%string, JStr quoteId)].

(** The [localDate] of [resolveQuoteId]:
    [new Date(today.getFullYear(), today.getMonth(), today.getDate())
       .toISOString().slice(0, 10)]. *)
Definition localDate (tz today : Z) : string :=
  JsDate.slice0 10
    (JsDate.toISOString
       (JsDate.Date_ymd tz (JsDate.getFullYear tz today)
          (JsDate.getMonth tz today) (JsDate.getDate tz today))).

Section DailyQuote.

(** The quote table of src/data/content and the platform's JSON codec
    ([None] from [JSON_parse] is a SyntaxError). *)
Variable dailyQuotes : list Quote.
Variable JSON_parse : string -> option json.
Variable JSON_stringify : json -> string.

(** The [try] block that reads the persisted record. *)
Definition read_stored : Eff World json :=
  try_catch
    (do raw <- localStorage_getItem STORAGE_KEY;
     match raw with
     | Some r =>
         if truthy_string r then
           match JSON_parse r with
           | Some j => ret j
           | None => throw SyntaxError
           end
         else ret JNull
     | None => ret JNull
     end)
    (fun _ => ret JNull).

(** What the [try] block leaves in [stored] for a given stored text. *)
Definition stored_of (raw : option string) : json :=
  match raw with
  | Some r =>
      if truthy_string r then
        match JSON_parse r with
        | Some j => j
        | None => JNull
        end
      else JNull
  | None => JNull
  end.

(** [dailyQuotes[Math.floor(r * dailyQuotes.length)] ?? dailyQuotes[0]]
    for the random draw [r]. *)
Definition select (r : Q) : option Quote :=
  match index dailyQuotes (Qfloor (r * inject_Z (Z.of_nat (length dailyQuotes)))) with
  | Some q => Some q
  | None => dailyQuotes !! 0%nat
  end.

Definition resolveQuoteId : Eff World jsval :=
  do w <- get;
  if negb (has_window w) then
    ret (match dailyQuotes !! 0%nat with
         | Some q => Val (JStr (id q))
         | None => Val (JStr "")
         end)
  else
    let today := now w in
    let localDate := localDate (tz w) today in
    do stored <- read_stored;
    if strict_eq_string (opt_member stored "date") localDate then
      fun w' => (member stored "quoteId", w')
    else
      do r <- Math_random;
      let selection := select r in
      match selection with
      | Some q =>
          localStorage_setItem STORAGE_KEY
            (JSON_stringify (record_of localDate (id q))) ;;
          ret (Val (JStr (id q)))
      | None => ret (Val (JStr ""))
      end.

(** The second [useMemo] of [useDailyQuote]: the quote shown for a
    resolved id. *)
Record QuoteView := { view_text : option string; view_source : option string }.

Definition find_quote (quoteId : jsval) : option Quote :=
  match List.find (fun item => strict_eq_string quoteId (id item)) dailyQuotes with
  | Some q => Some q
  | None => dailyQuotes !! 0%nat
  end.

Definition useDailyQuote (language : Language) (quoteId : jsval) : QuoteView :=
  match find_quote quoteId with
  | None => {| view_text := Some ""%string; view_source := Some ""%string |}
  | Some found =>
      {| view_text := fetchLocalized (text found) language;
         view_source := fetchLocalized (source found) language |}
  end.

End DailyQuote.

(** ** A reference JSON codec

    [JSON.parse] and [JSON.stringify] are parameters of the selector. This
    module gives one concrete codec for them, over strings of Latin-1 code
    units: the full JSON grammar on the reading side (a [\u] escape above
    255 is refused), the compact output of [JSON.stringify] on the writing
    side. *)

Module JsonRef.

Definition dquote : ascii := ascii_of_nat 34.
Definition backslash : ascii := ascii_of_nat 92.

Definition is_ws (c : ascii) : bool :=
  match N_of_ascii c with
  | 32%N | 9%N | 10%N | 13%N => true
  | _ => false
  end.

Fixpoint skip_ws (s : string) : string :=
  match s with
  | String c r => if is_ws c then skip_ws r else s
  | EmptyString => s
  end.

Definition hex_val (c : ascii) : option N :=
  let n := N_of_ascii c in
  if (48 <=? n)%N && (n <=? 57)%N then Some (n - 48)%N
  else if (97 <=? n)%N && (n <=? 102)%N then Some (n - 87)%N
  else if (65 <=? n)%N && (n <=? 70)%N then Some (n - 55)%N
  else None.

(** The character a two-character escape stands for. *)
Definition unescape (e : ascii) : option ascii :=
  match N_of_ascii e with
  | 34%N => Some dquote
  | 92%N => Some backslash
  | 47%N => Some "/"%char
  | 98%N => Some (ascii_of_nat 8)
  | 102%N => Some (ascii_of_nat 12)
  | 110%N => Some (ascii_of_nat 10)
  | 114%N => Some (ascii_of_nat 13)
  | 116%N => Some (ascii_of_nat 9)
  | _ => None
  end.

Definition prepend (c : ascii) (r : option (string * string)) : option (string * string) :=
  match r with
  | Some (s, rest) => Some (String c s, rest)
  | None => None
  end.

(** The characters of a string literal, after its opening quote, up to
    and including the closing quote; returns the string and what follows. *)
Fixpoint parse_chars (s : string) : option (string * string) :=
  match s with
  | EmptyString => None
  | String c r =>
      match N_of_ascii c with
      | 34%N => Some (EmptyString, r)
      | 92%N =>
          match r with
          | EmptyString => None
          | String e r1 =>
              match N_of_ascii e with
              | 117%N =>
                  match r1 with
                  | String h1 (String h2 (String h3 (String h4 r2))) =>
                      match hex_val h1, hex_val h2, hex_val h3, hex_val h4 with
                      | Some a, Some b, Some c', Some d =>
                          let code := (((a * 16 + b) * 16 + c') * 16 + d)%N in
                          if (code <? 256)%N
                          then prepend (ascii_of_N code) (parse_chars r2)
                          else None
                      | _, _, _, _ => None
                      end
                  | _ => None
                  end
              | _ =>
                  match unescape e with
                  | Some ch => prepend ch (parse_chars r1)
                  | None => None
                  end
              end
          end
      | n => if (n <? 32)%N then None else prepend c (parse_chars r)
      end
  end.

Definition is_digit (c : ascii) : bool :=
  let n := N_of_ascii c in (48 <=? n)%N && (n <=? 57)%N.

Fixpoint digits (s : string) : list Z * string :=
  match s with
  | String c r =>
      if is_digit c then
        let '(ds, r') := digits r in (Z.of_N (N_of_ascii c) - 48 :: ds, r')
      else ([], s)
  | EmptyString => ([], s)
  end.

Definition of_digits (ds : list Z) : Z := fold_left (fun a d => 10 * a + d) ds 0.

Definition strip (c : ascii) (s : string) : option string :=
  match s with
  | String c' r => if Ascii.eqb c c' then Some r else None
  | EmptyString => None
  end.

(** [-? int frac? exp?] as a decimal mantissa and exponent. *)
Definition parse_number (s : string) : option (json * string) :=
  let '(neg, s1) := match strip "-" s with Some r => (true, r) | None => (false, s) end in
  let '(ip, s2) := digits s1 in
  match ip with
  | [] => None
  | d :: ds =>
      if (d =? 0) && negb (Nat.eqb (length ds) 0) then None
      else
        let frac :=
          match strip "." s2 with
          | Some r => let '(f, r') := digits r in
                      match f with [] => None | _ => Some (f, r') end
          | None => Some ([], s2)
          end in
        match frac with
        | None => None
        | Some (fp, s3) =>
            let m := of_digits (ip ++ fp) in
            let m := if neg then - m else m in
            let shift := Z.of_nat (length fp) in
            let ex :=
              match s3 with
              | String c r =>
                  if Ascii.eqb c "e" || Ascii.eqb c "E" then
                    let '(eneg, r1) :=
                      match strip "-" r with
                      | Some r' => (true, r')
                      | None => match strip "+" r with
                                | Some r' => (false, r')
                                | None => (false, r)
                                end
                      end in
                    let '(eds, r2) := digits r1 in
                    match eds with
                    | [] => None
                    | _ => Some (if eneg then - of_digits eds else of_digits eds, r2)
                    end
                  else Some (0, s3)
              | EmptyString => Some (0, s3)
              end in
            match ex with
            | None => None
            | Some (e, s4) => Some (JNum m (e - shift), s4)
            end
        end
  end.

Fixpoint strip_prefix (p s : string) : option string :=
  match p with
  | EmptyString => Some s
  | String c p' =>
      match strip c s with
      | Some r => strip_prefix p' r
      | None => None
      end
  end.

(** One JSON value at the head of [s]. Every recursive call is made
    after at least one character was consumed, so a [fuel] above the
    length of the text is never exhausted. *)
Fixpoint parse_value (fuel : nat) (s : string) : option (json * string) :=
  match fuel with
  | O => None
  | S n =>
      match skip_ws s with
      | EmptyString => None
      | String c r =>
          match N_of_ascii c with
          | 123%N =>
              match strip "}" (skip_ws r) with
              | Some r' => Some (JObj [], r')
              | None =>
                  match parse_members n r with
                  | Some (ps, r') => Some (JObj ps, r')
                  | None => None
                  end
              end
          | 91%N =>
              match strip "]" (skip_ws r) with
              | Some r' => Some (JArr [], r')
              | None =>
                  match parse_elements n r with
                  | Some (js, r') => Some (JArr js, r')
                  | None => None
                  end
              end
          | 34%N =>
              match parse_chars r with
              | Some (str, r') => Some (JStr str, r')
              | None => None
              end
          | 116%N =>
              match strip_prefix "rue" r with
              | Some r' => Some (JBool true, r')
              | None => None
              end
          | 102%N =>
              match strip_prefix "alse" r with
              | Some r' => Some (JBool false, r')
              | None => None
              end
          | 110%N =>
              match strip_prefix "ull" r with
              | Some r' => Some (JNull, r')
              | None => None
              end
          | _ => parse_number (String c r)
          end
      end
  end
with parse_members (fuel : nat) (s : string) : option (list (string * json) * string) :=
  match fuel with
  | O => None
  | S n =>
      match strip dquote (skip_ws s) with
      | None => None
      | Some r =>
          match parse_chars r with
          | None => None
          | Some (k, r1) =>
              match strip ":" (skip_ws r1) with
              | None => None
              | Some r2 =>
                  match parse_value n r2 with
                  | None => None
                  | Some (v, r3) =>
                      match skip_ws r3 with
                      | EmptyString => None
                      | String c r4 =>
                          if Ascii.eqb c "}" then Some ([(k, v)], r4)
                          else if Ascii.eqb c "," then
                            match parse_members n r4 with
                            | Some (ps, r5) => Some ((k, v) :: ps, r5)
                            | None => None
                            end
                          else None
                      end
                  end
              end
          end
      end
  end
with parse_elements (fuel : nat) (s : string) : option (list json * string) :=
  match fuel with
  | O => None
  | S n =>
      match parse_value n s with
      | None => None
      | Some (v, r) =>
          match skip_ws r with
          | EmptyString => None
          | String c r1 =>
              if Ascii.eqb c "]" then Some ([v], r1)
              else if Ascii.eqb c "," then
                match parse_elements n r1 with
                | Some (vs, r2) => Some (v :: vs, r2)
                | None => None
                end
              else None
          end
      end
  end.

(** [JSON.parse(text)]; [None] is the SyntaxError. *)
Definition parse (text : string) : option json :=
  match parse_value (S (String.length text)) text with
  | Some (j, rest) =>
      match skip_ws rest with
      | EmptyString => Some j
      | String _ _ => None
      end
  | None => None
  end.

Definition hex_digit (n : N) : ascii :=
  if (n <? 10)%N then ascii_of_N (48 + n) else ascii_of_N (87 + n).

(** [QuoteJSONString] on one code unit. *)
Definition escape_char (c : ascii) : string :=
  match N_of_ascii c with
  | 34%N => String backslash (String dquote EmptyString)
  | 92%N => String backslash (String backslash EmptyString)
  | 8%N => String backslash "b"
  | 12%N => String backslash "f"
  | 10%N => String backslash "n"
  | 13%N => String backslash "r"
  | 9%N => String backslash "t"
  | n =>
      if (n <? 32)%N then
        String backslash
          (String "u" (String "0" (String "0"
             (String (hex_digit (n / 16)) (String (hex_digit (n mod 16)) EmptyString)))))
      else String c EmptyString
  end.

Fixpoint escape (s : string) : string :=
  match s with
  | EmptyString => EmptyString
  | String c r => escape_char c +:+ escape r
  end.

Definition quoted (s : string) : string :=
  String dquote (escape s +:+ String dquote EmptyString).

Fixpoint join (sep : string) (l : list string) : string :=
  match l with
  | [] => EmptyString
  | [x] => x
  | x :: rest => x +:+ sep +:+ join sep rest
  end.

Definition number_text (m e : Z) : string :=
  if e =? 0 then pretty m else pretty m +:+ "e" +:+ pretty e.

(** [JSON.stringify(value)], without indentation. *)
Fixpoint stringify (j : json) : string :=
  match j with
  | JNull => "null"
  | JBool true => "true"
  | JBool false => "false"
  | JNum m e => number_text m e
  | JStr s => quoted s
  | JArr js =>
      "[" +:+ join "," ((fix all (l : list json) : list string :=
                           match l with
                           | [] => []
                           | x :: l' => stringify x :: all l'
                           end) js) +:+ "]"
  | JObj ps =>
      "{" +:+ join "," ((fix all (l : list (string * json)) : list string :=
                           match l with
                           | [] => []
                           | (k, v) :: l' => (quoted k +:+ ":" +:+ stringify v) :: all l'
                           end) ps) +:+ "}"
  end.

End JsonRef.

(** ** The Web Audio objects the drone uses *)

Inductive ContextState := Suspended | Running | Closed.

Inductive OscillatorType := Sine | Square | Sawtooth | Triangle.

Inductive ParamEvent :=
  | LinearRampToValue (target endTime : Q)
  | ExponentialRampToValue (target endTime : Q).

(** An [AudioParam]: its [value] and the automation scheduled on it. *)
Record AudioParam := { value : Q; events : list ParamEvent }.

Inductive Dest :=
  | Destination               (* ctx.destination *)
  | NodeInput (node : nat)
  | FrequencyOf (node : nat). (* the frequency AudioParam of an oscillator *)

Inductive NodeKind :=
  | OscillatorNode (type : OscillatorType) (frequency : AudioParam)
      (started : bool) (stopAt : option Q)
  | GainNode (gainParam : AudioParam).

Record Node := { kind : NodeKind; outputs : list Dest }.

Record AudioContext := { state : ContextState; currentTime : Q }.

Inductive AudioCall :=
  | CallNewContext
  | CallResume
  | CallSuspend
  | CallClose
  | CallStart (node : nat)
  | CallStop (node : nat) (when : Q)
  | CallLinearRamp (node : nat) (target endTime : Q)
  | CallExponentialRamp (node : nat) (target endTime : Q)
  | CallDisconnect (node : nat).

(** The [DroneNode] interface: references to the four nodes of a voice. *)
Record DroneNode := { osc : nat; gain : nat; modOsc : nat; modGain : nat }.

(** What the page offers and how the platform behaves; none of it
    changes while the hook lives. *)
Record AudioEnv := {
  window_defined : bool;          (* typeof window !== "undefined" *)
  has_AudioContext : bool;        (* window.AudioContext is defined *)
  has_webkitAudioContext : bool;  (* window.webkitAudioContext is defined *)
  initial_state : ContextState;   (* state of a new context (autoplay policy) *)
  restop_throws : bool;           (* stop() on an oscillator already stopped throws *)
  rng : nat -> Q;                 (* the values Math.random() will return *)
}.

Record Audio := {
  env : AudioEnv;
  contextRef : option AudioContext;  (* contextRef.current *)
  nodesRef : list DroneNode;         (* nodesRef.current *)
  isActive : bool;                   (* the React state *)
  graph : gmap nat Node;             (* every audio node created so far *)
  allocated : nat;                   (* the next fresh node reference *)
  drawn : nat;                       (* how many random values were drawn *)
  trace : list AudioCall;            (* Web Audio calls made, oldest first *)
}.

Definition set_contextRef (c : option AudioContext) (a : Audio) : Audio :=
  {| env := env a; contextRef := c; nodesRef := nodesRef a; isActive := isActive a;
     graph := graph a; allocated := allocated a; drawn := drawn a; trace := trace a |}.

Definition set_nodesRef (l : list DroneNode) (a : Audio) : Audio :=
  {| env := env a; contextRef := contextRef a; nodesRef := l; isActive := isActive a;
     graph := graph a; allocated := allocated a; drawn := drawn a; trace := trace a |}.

Definition set_isActive (b : bool) (a : Audio) : Audio :=
  {| env := env a; contextRef := contextRef a; nodesRef := nodesRef a; isActive := b;
     graph := graph a; allocated := allocated a; drawn := drawn a; trace := trace a |}.

Definition set_graph (g : gmap nat Node) (a : Audio) : Audio :=
  {| env := env a; contextRef := contextRef a; nodesRef := nodesRef a;
     isActive := isActive a;
     graph := g; allocated := allocated a; drawn := drawn a; trace := trace a |}.

Definition set_allocated (n : nat) (a : Audio) : Audio :=
  {| env := env a; contextRef := contextRef a; nodesRef := nodesRef a;
     isActive := isActive a;
     graph := graph a; allocated := n; drawn := drawn a; trace := trace a |}.

Definition set_drawn (n : nat) (a : Audio) : Audio :=
  {| env := env a; contextRef := contextRef a; nodesRef := nodesRef a;
     isActive := isActive a;
     graph := graph a; allocated := allocated a; drawn := n; trace := trace a |}.

Definition called (c : AudioCall) (a : Audio) : Audio :=
  {| env := env a; contextRef := contextRef a; nodesRef := nodesRef a;
     isActive := isActive a;
     graph := graph a; allocated := allocated a; drawn := drawn a;
     trace := trace a ++ [c] |}.

Definition set_state (s : ContextState) (a : Audio) : Audio :=
  match contextRef a with
  | Some ctx => set_contextRef (Some {| state := s; currentTime := currentTime ctx |}) a
  | None => a
  end.

(** [Math.random()] in the drone's world. *)
Definition random : Eff Audio Q :=
  fun a => (Normal (rng (env a) (drawn a)), set_drawn (S (drawn a)) a).

(** [new AudioCtx()]. *)
Definition new_AudioContext : Eff Audio AudioContext :=
  fun a => (Normal {| state := initial_state (env a); currentTime := 0%Q |},
            called CallNewContext a).

Definition new_node (k : NodeKind) : Eff Audio nat :=
  fun a =>
    (Normal (allocated a),
     set_allocated (S (allocated a))
       (set_graph (<[allocated a := {| kind := k; outputs := [] |}]> (graph a)) a)).

(** [ctx.createOscillator()]: a sine at 440 Hz, not started. *)
Definition createOscillator : Eff Audio nat :=
  new_node (OscillatorNode Sine {| value := 440%Q; events := [] |} false None).

(** [ctx.createGain()]: unit gain. *)
Definition createGain : Eff Audio nat :=
  new_node (GainNode {| value := 1%Q; events := [] |}).

Definition update_node (n : nat) (f : Node -> Node) : Eff Audio unit :=
  modify (fun a => set_graph (alter f n (graph a)) a).

Definition with_kind (f : NodeKind -> NodeKind) (nd : Node) : Node :=
  {| kind := f (kind nd); outputs := outputs nd |}.

(** [node.type = t]. *)
Definition set_type (n : nat) (t : OscillatorType) : Eff Audio unit :=
  update_node n (with_kind (fun k =>
    match k with
    | OscillatorNode _ f s e => OscillatorNode t f s e
    | other => other
    end)).

(** [node.frequency.value = v]. *)
Definition set_frequency_value (n : nat) (v : Q) : Eff Audio unit :=
  update_node n (with_kind (fun k =>
    match k with
    | OscillatorNode t f s e => OscillatorNode t {| value := v; events := events f |} s e
    | other => other
    end)).

(** [node.gain.value = v]. *)
Definition set_gain_value (n : nat) (v : Q) : Eff Audio unit :=
  update_node n (with_kind (fun k =>
    match k with
    | GainNode g => GainNode {| value := v; events := events g |}
    | other => other
    end)).

(** [node.connect(dest)]. *)
Definition connect (n : nat) (d : Dest) : Eff Audio unit :=
  update_node n (fun nd => {| kind := kind nd; outputs := outputs nd ++ [d] |}).

(** [node.disconnect()]: drops every outgoing connection. *)
Definition disconnect (n : nat) : Eff Audio unit :=
  fun a =>
    (Normal tt,
     called (CallDisconnect n)
       (set_graph (alter (fun nd => {| kind := kind nd; outputs := [] |}) n (graph a)) a)).

(** [node.start()]: an oscillator starts once. *)
Definition osc_start (n : nat) : Eff Audio unit :=
  fun a =>
    match graph a !! n with
    | Some {| kind := OscillatorNode t f false e; outputs := o |} =>
        (Normal tt,
         called (CallStart n)
           (set_graph (<[n := {| kind := OscillatorNode t f true e; outputs := o |}]> (graph a)) a))
    | Some {| kind := OscillatorNode _ _ true _ |} => (Throw InvalidStateError, a)
    | _ => (Throw TypeError, a)
    end.

(** [node.stop(when)]: an InvalidStateError on an oscillator that was
    never started and, where the platform says so, on one that was
    already told to stop. *)
Definition osc_stop (n : nat) (when : Q) : Eff Audio unit :=
  fun a =>
    match graph a !! n with
    | Some {| kind := OscillatorNode t f true e; outputs := o |} =>
        match e with
        | Some _ =>
            if restop_throws (env a) then (Throw InvalidStateError, a)
            else (Normal tt, called (CallStop n when) a)
        | None =>
            (Normal tt,
             called (CallStop n when)
               (set_graph
                  (<[n := {| kind := OscillatorNode t f true (Some when); outputs := o |}]>
                     (graph a)) a))
        end
    | Some {| kind := OscillatorNode _ _ false _ |} => (Throw InvalidStateError, a)
    | _ => (Throw TypeError, a)
    end.

Definition schedule (ev : ParamEvent) (p : AudioParam) : AudioParam :=
  {| value := value p; events := events p ++ [ev] |}.

(** [node.gain.linearRampToValueAtTime(v, t)]. *)
Definition gain_linearRamp (n : nat) (v t : Q) : Eff Audio unit :=
  fun a =>
    match graph a !! n with
    | Some {| kind := GainNode g; outputs := o |} =>
        (Normal tt,
         called (CallLinearRamp n v t)
           (set_graph
              (<[n := {| kind := GainNode (schedule (LinearRampToValue v t) g);
                         outputs := o |}]> (graph a)) a))
    | _ => (Throw TypeError, a)
    end.

(** [node.gain.exponentialRampToValueAtTime(v, t)]: a RangeError for a
    target of zero. *)
Definition gain_exponentialRamp (n : nat) (v t : Q) : Eff Audio unit :=
  fun a =>
    match graph a !! n with
    | Some {| kind := GainNode g; outputs := o |} =>
        if Qeq_bool v 0 then (Throw RangeError, a)
        else
          (Normal tt,
           called (CallExponentialRamp n v t)
             (set_graph
                (<[n := {| kind := GainNode (schedule (ExponentialRampToValue v t) g);
                           outputs := o |}]> (graph a)) a))
    | _ => (Throw TypeError, a)
    end.

(** [ctx.suspend().catch(() => undefined)]: a running context is
    suspended; the rejection on a closed one is swallowed. *)
Definition suspend : Eff Audio unit :=
  fun a =>
    (Normal tt,
     called CallSuspend
       (match contextRef a with
        | Some {| state := Running |} => set_state Suspended a
        | _ => a
        end)).

(** [ctx.resume().catch(() => undefined)]. *)
Definition resume : Eff Audio unit :=
  fun a =>
    (Normal tt,
     called CallResume
       (match contextRef a with
        | Some {| state := Suspended |} => set_state Running a
        | _ => a
        end)).

(** [ctx.close().catch(() => undefined)]. *)
Definition close : Eff Audio unit :=
  fun a => (Normal tt, called CallClose (set_state Closed a)).

(** ** The drone hook (src/hooks/useTanpuraDrone.ts) *)

Definition DRONE_FREQUENCIES : list Q := [146.83; 220; 293.66; 220]%Q.

(** [setIsActive(b)]. *)
Definition setIsActive (b : bool) : Eff Audio unit := modify (set_isActive b).

(** The body of the [forEach] callback of [stop], for one voice. *)
Definition stop_voice (now : Q) (v : DroneNode) : Eff Audio unit :=
  try_catch
    (gain_exponentialRamp (gain v) 0.0001 (now + 0.5) ;;
     gain_exponentialRamp (modGain v) 0.0001 (now + 0.5) ;;
     osc_stop (osc v) (now + 0.6) ;;
     osc_stop (modOsc v) (now + 0.6))
    (fun _ => ret tt) ;;
  disconnect (osc v) ;;
  disconnect (gain v) ;;
  disconnect (modOsc v) ;;
  disconnect (modGain v).

Definition stop : Eff Audio unit :=
  do a <- get;
  let now := match contextRef a with
             | Some ctx => currentTime ctx
             | None => 0%Q
             end in
  forEach (stop_voice now) (nodesRef a) ;;
  modify (set_nodesRef []) ;;
  (do a' <- get;
   match contextRef a' with
   | Some _ => suspend
   | None => ret tt
   end) ;;
  setIsActive false.

(** The body of the [forEach] callback of [start], for one frequency;
    returns the record pushed onto [oscillators]. *)
Definition start_voice (now : Q) (freq : Q) (index : nat) : Eff Audio DroneNode :=
  do osc <- createOscillator;
  do gain <- createGain;
  let spread := if Nat.eqb (index mod 2) 0 then 0.1%Q else (- 0.08)%Q in
  set_type osc Sine ;;
  set_frequency_value osc freq ;;
  do detune <- createOscillator;
  set_type detune Sine ;;
  do r <- random;
  set_frequency_value detune (0.1 + r * 0.2)%Q ;;
  do detuneGain <- createGain;
  set_gain_value detuneGain (freq * spread)%Q ;;
  connect detune (NodeInput detuneGain) ;;
  connect detuneGain (FrequencyOf osc) ;;
  osc_start detune ;;
  set_gain_value gain 0%Q ;;
  connect osc (NodeInput gain) ;;
  connect gain Destination ;;
  osc_start osc ;;
  gain_linearRamp gain 0.08%Q (now + 2)%Q ;;
  ret {| osc := osc; gain := gain; modOsc := detune; modGain := detuneGain |}.

Fixpoint start_voices (now : Q) (freqs : list Q) (index : nat)
    (oscillators : list DroneNode) : Eff Audio (list DroneNode) :=
  match freqs with
  | [] => ret oscillators
  | freq :: rest =>
      do v <- start_voice now freq index;
      start_voices now rest (S index) (oscillators ++ [v])
  end.

Definition start : Eff Audio unit :=
  do a <- get;
  if negb (window_defined (env a)) then ret tt
  else if negb (has_AudioContext (env a) || has_webkitAudioContext (env a)) then ret tt
  else
    (match contextRef a with
     | Some _ => ret tt
     | None => do c <- new_AudioContext; modify (set_contextRef (Some c))
     end) ;;
    do a1 <- get;
    match contextRef a1 with
    | None => throw TypeError
    | Some ctx =>
        (match state ctx with
         | Suspended => resume
         | _ => ret tt
         end) ;;
        do oscillators <- start_voices (currentTime ctx) DRONE_FREQUENCIES 0 [];
        modify (set_nodesRef oscillators) ;;
        setIsActive true
    end.

Definition toggle : Eff Audio unit :=
  do a <- get;
  if isActive a then stop else start.

(** The cleanup of the hook's effect, run when the component unmounts. *)
Definition unmount : Eff Audio unit :=
  stop ;;
  do a <- get;
  match contextRef a with
  | Some _ => close
  | None => ret tt
  end.

(** The hook at mount: [useRef(null)], [useRef([])], [useState(false)]. *)
Definition mount (e : AudioEnv) : Audio :=
  {| env := e; contextRef := None; nodesRef := []; isActive := false;
     graph := ∅; allocated := 0; drawn := 0; trace := [] |}.

(** The world after [n] clicks on the drone button, if none threw. *)
Fixpoint toggles (n : nat) (a : Audio) : option Audio :=
  match n with
  | O => Some a
  | S n' =>
      match toggle a with
      | (Normal _, a') => toggles n' a'
      | (Throw _, _) => None
      end
  end.

(** ** Vocabulary of the statements *)

(** The local calendar date of the time value [t], as [YYYY-MM-DD]. *)
Definition local_calendar_date (tz t : Z) : string :=
  JsDate.iso_date (JsDate.getFullYear tz t) (JsDate.getMonth tz t) (JsDate.getDate tz t).

(** Two time values fall on the same local calendar day. *)
Definition same_local_day (tz t1 t2 : Z) : Prop :=
  JsDate.Day (JsDate.LocalTime tz t1) = JsDate.Day (JsDate.LocalTime tz t2).

(** A [{date, quoteId}] record: an object with both fields, both strings. *)
Definition valid_record (j : json) : bool :=
  match opt_member j "date", opt_member j "quoteId" with
  | Val (JStr _), Val (JStr _) => true
  | _, _ => false
  end.

(** A stored text that is not the JSON encoding of such a record. *)
Definition malformed (parse : string -> option json) (raw : string) : bool :=
  match parse raw with
  | Some j => negb (valid_record j)
  | None => true
  end.

(** A stored text whose parsed value carries today's date. *)
Definition dated_today (parse : string -> option json) (today raw : string) : bool :=
  match parse raw with
  | Some j => strict_eq_string (opt_member j "date") today
  | None => false
  end.

(** The world [w] with the text [raw] stored under the selector's key. *)
Definition with_item (raw : string) (w : World) : World :=
  set_items (<[STORAGE_KEY := raw]> (items w)) w.

(** The world [w] with nothing stored under the selector's key. *)
Definition without_item (w : World) : World :=
  set_items (delete STORAGE_KEY (items w)) w.

(** The world a call leaves when it draws and persists the quote [q]:
    one read, one draw, one write. *)
Definition after_selection (stringify : json -> string) (w : World) (q : Quote) : World :=
  let text := stringify (record_of (localDate (tz w) (now w)) (id q)) in
  let w1 := next_rand (log RandomDraw (log (GetItem STORAGE_KEY) w)) in
  set_items (<[STORAGE_KEY := text]> (items w1)) (log (SetItem STORAGE_KEY text) w1).

(** What is shown for the quote [q] in a language. *)
Definition localized_view (q : Quote) (language : Language) : QuoteView :=
  {| view_text := fetchLocalized (text q) language;
     view_source := fetchLocalized (source q) language |}.

(** The two quotes of the scenario of the specification. *)
Definition quote_q1 : Quote :=
  {| id := "q1"; text := {["en"%string := "A"%string]};
     source := {["en"%string := "S1"%string]} |}.
Definition quote_q2 : Quote :=
  {| id := "q2"; text := {["en"%string := "B"%string]};
     source := {["en"%string := "S2"%string]} |}.
Definition two_quotes : list Quote := [quote_q1; quote_q2].

(** A browser at 2024-03-10 11:00:00 UTC, [tz] minutes east of UTC, with
    an empty working storage and a random source stuck at 0.75. *)
Definition browser (tz : Z) : World :=
  {| has_window := true; now := 1710068400000; tz := tz;
     storage_available := true; storage_writable := true; items := ∅;
     rand := fun _ => 0.75%Q; rand_pos := 0; calls := [] |}.

(** The same browser with a storage that refuses writes. *)
Definition browser_full_storage : World :=
  {| has_window := true; now := 1710068400000; tz := 0;
     storage_available := true; storage_writable := false; items := ∅;
     rand := fun _ => 0.75%Q; rand_pos := 0; calls := [] |}.

(** The same browser with a storage that cannot be reached. *)
Definition browser_blocked_storage : World :=
  {| has_window := true; now := 1710068400000; tz := 0;
     storage_available := false; storage_writable := false; items := ∅;
     rand := fun _ => 0.75%Q; rand_pos := 0; calls := [] |}.

(** Server-side rendering: no [window]. *)
Definition server : World :=
  {| has_window := false; now := 1710068400000; tz := 0;
     storage_available := false; storage_writable := false; items := ∅;
     rand := fun _ => 0.75%Q; rand_pos := 0; calls := [] |}.

(** The scenario's table with the reference codec. *)
Abbreviation resolve_scenario :=
  (resolveQuoteId two_quotes JsonRef.parse JsonRef.stringify).

(** The text of the object [{date: "2024-03-10"}], which has no [quoteId]. *)
Definition dated_without_quoteId : string :=
  JsonRef.stringify (JObj [("date"%string, JStr "2024-03-10")]).

(** The text of one string-valued member of an object, followed by [tail]. *)
Definition member_text (k v tail : string) : string :=
  String JsonRef.dquote (JsonRef.escape k +:+ String JsonRef.dquote (String ":"
    (String JsonRef.dquote (JsonRef.escape v +:+ String JsonRef.dquote tail)))).

(** The drone is silent: no voice is held. *)
Definition Idle (a : Audio) : Prop := isActive a = false /\ nodesRef a = [].

(** The drone sounds: [n] voices are held. *)
Definition Sounding (n : nat) (a : Audio) : Prop :=
  isActive a = true /\ length (nodesRef a) = n.

(** The page has a [window] with an audio context constructor. *)
Definition audio_supported (e : AudioEnv) : bool :=
  window_defined e && (has_AudioContext e || has_webkitAudioContext e).

(** [spread] of the voice at [index]. *)
Definition spread_at (index : nat) : Q :=
  if Nat.even index then 0.1%Q else (- 0.08)%Q.

(** The voice [v] as [start] leaves it in the graph [g], for the base
    frequency [freq], the random draw [r], the voice index [i] and the
    context time [now]: a started sine at [freq] into a gain at 0 that
    ramps linearly to 0.08 at [now + 2] and feeds the destination, and a
    started sine at [0.1 + r * 0.2] into a gain of [freq * spread] that
    feeds the frequency of the first. *)
Definition voice_built (g : gmap nat Node) (v : DroneNode) (freq r : Q) (i : nat) (now : Q)
  : Prop :=
  g !! osc v = Some {| kind := OscillatorNode Sine {| value := freq; events := [] |} true None;
                       outputs := [NodeInput (gain v)] |} /\
  g !! gain v = Some {| kind := GainNode {| value := 0%Q;
                                            events := [LinearRampToValue 0.08%Q (now + 2)%Q] |};
                        outputs := [Destination] |} /\
  g !! modOsc v = Some {| kind := OscillatorNode Sine
                                    {| value := (0.1 + r * 0.2)%Q; events := [] |} true None;
                          outputs := [NodeInput (modGain v)] |} /\
  g !! modGain v = Some {| kind := GainNode {| value := (freq * spread_at i)%Q; events := [] |};
                           outputs := [FrequencyOf (osc v)] |}.

(** The hook's references and state, and the page, are the same in [a']
    as in [a]. *)
Definition same_hook (a a' : Audio) : Prop :=
  env a' = env a /\ contextRef a' = contextRef a /\
  nodesRef a' = nodesRef a /\ isActive a' = isActive a.

(** In the call trace [t], the call [c1] is made before the call [c2]. *)
Definition before (t : list AudioCall) (c1 c2 : AudioCall) : Prop :=
  exists t1 t2 t3, t = t1 ++ c1 :: t2 ++ c2 :: t3.

(** A page with Web Audio, a context that starts running, and a random
    source stuck at 0.5. *)
Definition audio_page : AudioEnv :=
  {| window_defined := true; has_AudioContext := true; has_webkitAudioContext := false;
     initial_state := Running; restop_throws := true; rng := fun _ => 0.5%Q |}.

(** A page whose browser has no Web Audio. *)
Definition silent_page : AudioEnv :=
  {| window_defined := true; has_AudioContext := false; has_webkitAudioContext := false;
     initial_state := Running; restop_throws := true; rng := fun _ => 0.5%Q |}.

(** [ctx?.currentTime ?? 0] for the context of the hook. *)
Definition now_of (a : Audio) : Q :=
  match contextRef a with
  | Some ctx => currentTime ctx
  | None => 0%Q
  end.

(** The voices of one session, as [start] leaves them: the voice at
    position [i] is built for the [i]-th frequency and the [i]-th draw,
    and both of its oscillators are started before its gain is ramped. *)
Definition voices_built (a' : Audio) (now : Q) (freqs : list Q) (index : nat)
    (draw : nat -> Q) (vs : list DroneNode) : Prop :=
  length vs = length freqs /\
  forall i v, vs !! i = Some v ->
    exists freq,
      freqs !! i = Some freq /\
      voice_built (graph a') v freq (draw i) (index + i) now /\
      before (trace a') (CallStart (osc v)) (CallLinearRamp (gain v) 0.08%Q (now + 2)%Q) /\
      before (trace a') (CallStart (modOsc v)) (CallLinearRamp (gain v) 0.08%Q (now + 2)%Q).

(** A computation that leaves the hook's references, state and page alone,
    whether it returns or throws. *)
Definition hook_safe {A} (c : Eff Audio A) : Prop := forall a, same_hook a (c a).2.

(** The context after [suspend]. *)
Definition suspended (c : option AudioContext) : option AudioContext :=
  match c with
  | Some {| state := Running; currentTime := t |} =>
      Some {| state := Suspended; currentTime := t |}
  | other => other
  end.

(** The session [start] builds on the sample page, in which the first
    oscillator was already told to stop, on a platform that refuses a
    second [stop]. *)
Definition session_with_stopped_oscillator : Audio :=
  (osc_stop 0 1%Q (start (mount audio_page)).2).2.

(** ** Narration and navigation (src/components/GitaExperience.tsx) *)

(** A [SpeechSynthesisVoice]: the code reads its [lang] only, behind
    [?.], so a voice without a language tag is allowed for. *)
Record SpeechSynthesisVoice := { voiceURI : string; lang : option string }.

Definition voiceHints (language : Language) : list string :=
  match language with
  | en => ["en-IN"; "en-GB"; "en-US"]
  | hi => ["hi-IN"; "mr-IN"]
  | ml => ["ml-IN"; "en-IN"]
  | ta => ["ta-IN"; "en-IN"]
  | kn => ["kn-IN"; "en-IN"]
  | te => ["te-IN"; "en-IN"]
  | bn => ["bn-IN"; "en-IN"]
  | ar => ["ar-SA"; "ar-EG"; "ar"]
  end%string.

(** [toLowerCase] on one Latin-1 code unit: A-Z and the accented capitals
    (all of 192-222 but the multiplication sign) move up by 32. *)
Definition lower_char (c : ascii) : ascii :=
  let n := N_of_ascii c in
  if ((65 <=? n)%N && (n <=? 90)%N)
     || ((192 <=? n)%N && (n <=? 222)%N && negb (n =? 215)%N)
  then ascii_of_N (n + 32) else c.

(** [s.toLowerCase()]. *)
Fixpoint toLowerCase (s : string) : string :=
  match s with
  | EmptyString => EmptyString
  | String c r => String (lower_char c) (toLowerCase r)
  end.

(** [s.startsWith(p)]. *)
Definition startsWith (s p : string) : bool := String.prefix p s.

(** [item.lang?.toLowerCase().startsWith(hint.toLowerCase())], as a
    condition: [undefined] for a voice without [lang] is falsy. *)
Definition lang_matches (hint : string) (item : SpeechSynthesisVoice) : bool :=
  match lang item with
  | Some l => startsWith (toLowerCase l) (toLowerCase hint)
  | None => false
  end.

(** The [for (const hint of hints)] loop of [pickVoice]. *)
Fixpoint first_hinted (hints : list string) (voices : list SpeechSynthesisVoice)
  : option SpeechSynthesisVoice :=
  match hints with
  | [] => None
  | hint :: rest =>
      match List.find (lang_matches hint) voices with
      | Some voice => Some voice
      | None => first_hinted rest voices
      end
  end.

Definition pickVoice (voices : list SpeechSynthesisVoice) (language : Language)
  : option SpeechSynthesisVoice :=
  match first_hinted (voiceHints language) voices with
  | Some voice => Some voice
  | None => List.find (lang_matches "en") voices
  end.

(** A section and a chapter of src/data/content, with the fields the
    component reads. *)
Record SectionContent := {
  section_id : string;
  title : gmap string string;
  brief : gmap string string;
  narration : gmap string string;
  realLife : gmap string string;
  image : option string;
}.

Record ChapterContent := {
  chapter_id : Z;
  chapter_name : gmap string string;
  essence : gmap string string;
  highlightVerse : gmap string string;
  sections : list SectionContent;
}.

(** A [SpeechSynthesisUtterance], with the fields the component sets. *)
Record SpeechSynthesisUtterance := {
  utterance_text : string;
  utterance_voice : option SpeechSynthesisVoice;
  utterance_lang : string;
  rate : Q;
  pitch : Q;
}.

(** The component's state and the speech engine of the page: the
    utterances the engine holds, the one being spoken first. *)
Record Ui := {
  language : Language;
  chapterId : Z;
  sectionId : string;
  voices : list SpeechSynthesisVoice;
  isSpeaking : bool;
  speech_window : bool;                                   (* typeof window !== "undefined" *)
  speechSynthesis : option (list SpeechSynthesisUtterance); (* window.speechSynthesis *)
}.

Definition set_selection (c : Z) (s : string) (u : Ui) : Ui :=
  {| language := language u; chapterId := c; sectionId := s; voices := voices u;
     isSpeaking := isSpeaking u; speech_window := speech_window u;
     speechSynthesis := speechSynthesis u |}.

Definition setLanguage (l : Language) (u : Ui) : Ui :=
  {| language := l; chapterId := chapterId u; sectionId := sectionId u; voices := voices u;
     isSpeaking := isSpeaking u; speech_window := speech_window u;
     speechSynthesis := speechSynthesis u |}.

Definition setVoices (vs : list SpeechSynthesisVoice) (u : Ui) : Ui :=
  {| language := language u; chapterId := chapterId u; sectionId := sectionId u; voices := vs;
     isSpeaking := isSpeaking u; speech_window := speech_window u;
     speechSynthesis := speechSynthesis u |}.

Definition setIsSpeaking (speaking : bool) (u : Ui) : Ui :=
  {| language := language u; chapterId := chapterId u; sectionId := sectionId u;
     voices := voices u; isSpeaking := speaking; speech_window := speech_window u;
     speechSynthesis := speechSynthesis u |}.

(** [setIsSpeaking] together with a new content of the engine's queue. *)
Definition set_speech (speaking : bool) (queue : list SpeechSynthesisUtterance) (u : Ui) : Ui :=
  {| language := language u; chapterId := chapterId u; sectionId := sectionId u;
     voices := voices u; isSpeaking := speaking; speech_window := speech_window u;
     speechSynthesis := Some queue |}.

(** [array.join(" ")] on values that may be [undefined]: those count as
    the empty string. *)
Fixpoint join_spaced (parts : list (option string)) : string :=
  match parts with
  | [] => EmptyString
  | [p] => default EmptyString p
  | p :: rest => default EmptyString p +:+ " " +:+ join_spaced rest
  end.

Section Reader.

(** The chapters of src/data/content. *)
Variable chapters : list ChapterContent.

(** The [useState] initial values. *)
Definition initial_chapterId : Z :=
  match chapters !! 0%nat with
  | Some c => chapter_id c
  | None => 1
  end.

Definition initial_sectionId : string :=
  match chapters !! 0%nat with
  | Some c => match sections c !! 0%nat with
              | Some s => section_id s
              | None => EmptyString
              end
  | None => EmptyString
  end.

(** The component at its first render on a page. *)
Definition first_render (window : bool) (synthesis : option (list SpeechSynthesisUtterance))
  : Ui :=
  {| language := en; chapterId := initial_chapterId; sectionId := initial_sectionId;
     voices := []; isSpeaking := false; speech_window := window;
     speechSynthesis := synthesis |}.

(** The [chapter] memo. *)
Definition chapter_of (u : Ui) : option ChapterContent :=
  List.find (fun item => chapter_id item =? chapterId u) chapters.

(** The [section] memo. *)
Definition section_of (u : Ui) : option SectionContent :=
  match chapter_of u with
  | None => None
  | Some chapter =>
      match List.find (fun item => String.eqb (section_id item) (sectionId u)) (sections chapter) with
      | Some s => Some s
      | None => sections chapter !! 0%nat
      end
  end.

(** The [onClick] of a chapter button. *)
Definition click_chapter (item : ChapterContent) (u : Ui) : Ui :=
  set_selection (chapter_id item)
    (match sections item !! 0%nat with
     | Some s => section_id s
     | None => EmptyString
     end) u.

(** The [onClick] of a section button. *)
Definition click_section (item : SectionContent) (u : Ui) : Ui :=
  set_selection (chapterId u) (section_id item) u.

(** The utterance [handleNarration] builds for a section. *)
Definition utterance_for (section : SectionContent) (u : Ui) : SpeechSynthesisUtterance :=
  let text :=
    join_spaced [fetchLocalized (brief section) (language u);
                 fetchLocalized (narration section) (language u);
                 fetchLocalized (realLife section) (language u)] in
  let voice := pickVoice (voices u) (language u) in
  {| utterance_text := text;
     utterance_voice := voice;
     utterance_lang :=
       match voice with
       | Some v => default "undefined"%string (lang v)
       | None => match language u with ar => "ar-SA" | _ => "en-IN" end
       end;
     rate := match language u with ar => 0.9 | en => 0.98 | _ => 0.95 end;
     pitch := 1 |}.

Definition handleNarration (u : Ui) : Ui :=
  match section_of u with
  | None => u
  | Some section =>
      if negb (speech_window u) then u
      else
        match speechSynthesis u with
        | None => u
        | Some _ =>
            (* synthesis.cancel() empties the queue, synthesis.speak appends *)
            set_speech true ([] ++ [utterance_for section u]) u
        end
  end.

Definition stopNarration (u : Ui) : Ui :=
  if negb (speech_window u) then u
  else
    match speechSynthesis u with
    | None => u
    | Some _ => set_speech false [] u
    end.

(** The [onClick] of the narration button. *)
Definition click_narration (u : Ui) : Ui :=
  if isSpeaking u then stopNarration u else handleNarration u.

(** [syncVoices] for the list [getVoices()] returned: an empty list is
    ignored. *)
Definition syncVoices (available : list SpeechSynthesisVoice) (u : Ui) : Ui :=
  if Nat.eqb (length available) 0 then u else setVoices available u.

(** The component's own test for speech support; a [speechSynthesis]
    property that is present but empty is not told apart from a missing
    one. *)
Definition speechSupported (u : Ui) : bool :=
  speech_window u && bool_decide (is_Some (speechSynthesis u)).

(** The engine is done with the utterance at the head of its queue and
    runs its [onend] or [onerror] handler. *)
Definition utterance_done (u : Ui) : Ui :=
  match speechSynthesis u with
  | Some queue => set_speech false (tail queue) u
  | None => u
  end.

(** The [onend] or [onerror] handler of an utterance that [cancel()]
    has already removed from the queue: the event of a cancelled utterance
    arrives after the call. *)
Definition cancelled_utterance_event (u : Ui) : Ui := setIsSpeaking false u.

(** What can happen to the component between two renders. *)
Inductive Action :=
  | ClickChapter (item : ChapterContent)
  | ClickSection (item : SectionContent)
  | SelectLanguage (l : Language)
  | ClickNarration
  | VoicesChanged (available : list SpeechSynthesisVoice)
  | UtteranceDone
  | CancelledUtteranceEvent.

Definition step (act : Action) (u : Ui) : Ui :=
  match act with
  | ClickChapter item => click_chapter item u
  | ClickSection item => click_section item u
  | SelectLanguage l => setLanguage l u
  | ClickNarration => click_narration u
  | VoicesChanged available =>
      (* the listener is registered only when speech is supported *)
      if speechSupported u then syncVoices available u else u
  | UtteranceDone => utterance_done u
  | CancelledUtteranceEvent => cancelled_utterance_event u
  end.

(** The actions of a list, the first one first. *)
Definition run (acts : list Action) (u : Ui) : Ui := fold_left (fun u act => step act u) acts u.

(** Narration never queues up: the engine holds at most one utterance,
    and holds one whenever the component says it speaks. *)
Definition speaking_agrees (u : Ui) : Prop :=
  match speechSynthesis u with
  | Some queue => (length queue <= 1)%nat /\ (isSpeaking u = true -> queue <> [])
  | None => isSpeaking u = false
  end.

End Reader.

(** A voice with its language tag in lower case. *)
Definition lower_voice (v : SpeechSynthesisVoice) : SpeechSynthesisVoice :=
  {| voiceURI := voiceURI v; lang := toLowerCase <$> lang v |}.

(** Sample voices and a sample chapter. *)
Definition voice_en_GB : SpeechSynthesisVoice := {| voiceURI := "Daniel"; lang := Some "en-GB"%string |}.
Definition voice_ar_EG : SpeechSynthesisVoice := {| voiceURI := "Laila"; lang := Some "ar-EG"%string |}.
Definition voice_ar_SA : SpeechSynthesisVoice := {| voiceURI := "Maged"; lang := Some "AR-sa"%string |}.
Definition voice_untagged : SpeechSynthesisVoice := {| voiceURI := "Robot"; lang := None |}.
Definition sample_voices : list SpeechSynthesisVoice :=
  [voice_untagged; voice_en_GB; voice_ar_EG; voice_ar_SA].

Definition section_one : SectionContent :=
  {| section_id := "1-1"; title := {["en"%string := "Setting"%string]};
     brief := {["en"%string := "Two armies."%string]};
     narration := {["en"%string := "Arjuna asks."%string]};
     realLife := ∅; image := None |}.
Definition section_two : SectionContent :=
  {| section_id := "1-2"; title := {["en"%string := "Doubt"%string]};
     brief := {["en"%string := "He hesitates."%string]};
     narration := {["en"%string := "Krishna listens."%string]};
     realLife := {["en"%string := "Pause first."%string]}; image := None |}.
Definition chapter_one : ChapterContent :=
  {| chapter_id := 1; chapter_name := {["en"%string := "One"%string]}; essence := ∅;
     highlightVerse := ∅; sections := [section_one; section_two] |}.
Definition chapter_two : ChapterContent :=
  {| chapter_id := 2; chapter_name := {["en"%string := "Two"%string]}; essence := ∅;
     highlightVerse := ∅; sections := [] |}.
Definition sample_chapters : list ChapterContent := [chapter_one; chapter_two].

(** The first render of the sample chapters on a page with a silent
    speech engine. *)
Definition sample_page : Ui := first_render sample_chapters true (Some []).

(** ** The [voiceschanged] effect (src/components/GitaExperience.tsx) *)

(** The value of the [onvoiceschanged] property: functions are told
    apart by identity, here a number. *)
Inductive Handler :=
  | HUndefined
  | HNull
  | HFunction (f : nat).

Definition handler_eqb (h1 h2 : Handler) : bool :=
  match h1, h2 with
  | HUndefined, HUndefined => true
  | HNull, HNull => true
  | HFunction f, HFunction g => Nat.eqb f g
  | _, _ => false
  end.

(** [window.speechSynthesis] as an event target: whether it has the two
    listener methods, its [voiceschanged] listeners (a DOM listener list
    holds no function twice) and its [onvoiceschanged] property. *)
Record SpeechTarget := {
  has_addEventListener : bool;
  has_removeEventListener : bool;
  listeners : list nat;
  onvoiceschanged : Handler;
}.

Definition set_listeners (l : list nat) (t : SpeechTarget) : SpeechTarget :=
  {| has_addEventListener := has_addEventListener t;
     has_removeEventListener := has_removeEventListener t;
     listeners := l; onvoiceschanged := onvoiceschanged t |}.

Definition set_onvoiceschanged (h : Handler) (t : SpeechTarget) : SpeechTarget :=
  {| has_addEventListener := has_addEventListener t;
     has_removeEventListener := has_removeEventListener t;
     listeners := listeners t; onvoiceschanged := h |}.

(** [target.addEventListener("voiceschanged", f)]: a listener already
    there is not added again. *)
Definition addEventListener (f : nat) (t : SpeechTarget) : SpeechTarget :=
  if existsb (Nat.eqb f) (listeners t) then t else set_listeners (listeners t ++ [f]) t.

(** [target.removeEventListener("voiceschanged", f)]. *)
Definition removeEventListener (f : nat) (t : SpeechTarget) : SpeechTarget :=
  set_listeners (List.filter (fun g => negb (Nat.eqb g f)) (listeners t)) t.

(** What the effect returns: nothing, or one of its two cleanups with
    the values they close over. *)
Inductive Cleanup :=
  | NoCleanup
  | RemoveListener (self : nat)
  | RestoreHandler (self : nat) (previous : Handler).

(** The effect, for the function [self] its run creates as [syncVoices]
    and the list [getVoices()] returns at that moment. *)
Definition voices_effect (self : nat) (available : list SpeechSynthesisVoice)
    (u : Ui) (target : SpeechTarget) : Ui * SpeechTarget * Cleanup :=
  if negb (speechSupported u) then (u, target, NoCleanup)
  else
    let u := syncVoices available u in
    if has_addEventListener target then
      (u, addEventListener self target, RemoveListener self)
    else
      let previous := onvoiceschanged target in
      (u, set_onvoiceschanged (HFunction self) target, RestoreHandler self previous).

(** The cleanup, on the target as it is when the cleanup runs. *)
Definition run_cleanup (c : Cleanup) (target : SpeechTarget) : SpeechTarget :=
  match c with
  | NoCleanup => target
  | RemoveListener self =>
      if has_removeEventListener target then removeEventListener self target else target
  | RestoreHandler self previous =>
      if handler_eqb (onvoiceschanged target) (HFunction self) then
        set_onvoiceschanged (match previous with HUndefined => HNull | p => p end) target
      else target
  end.

(** A [voiceschanged] event on the target calls the function [f]. *)
Definition receives (t : SpeechTarget) (f : nat) : Prop :=
  f ∈ listeners t \/ onvoiceschanged t = HFunction f.

(** Speech engines with one listener of another script: one with the
    listener methods, one with the event property only. *)
Definition modern_target : SpeechTarget :=
  {| has_addEventListener := true; has_removeEventListener := true;
     listeners := [7%nat]; onvoiceschanged := HNull |}.
Definition legacy_target : SpeechTarget :=
  {| has_addEventListener := false; has_removeEventListener := false;
     listeners := []; onvoiceschanged := HFunction 7 |}.

(** ** Vocabulary of the further statements *)

(** The value of a string of decimal digits, continuing from [acc]. *)
Fixpoint decimal_value (acc : Z) (s : string) : Z :=
  match s with
  | EmptyString => acc
  | String c r => decimal_value (10 * acc + (Z.of_nat (nat_of_ascii c) - 48)) r
  end.

(** The call creates an audio context. *)
Definition is_new_context (c : AudioCall) : bool :=
  match c with
  | CallNewContext => true
  | _ => false
  end.

(** How many audio contexts the calls of a trace created. *)
Definition new_contexts (t : list AudioCall) : nat := length (List.filter is_new_context t).

(** The voice whose four nodes were created in a row from reference [k],
    in the order of [start]: oscillator, gain, modulator, modulator gain. *)
Definition voice_at (k : nat) : DroneNode :=
  {| osc := k; gain := S k; modOsc := S (S k); modGain := S (S (S k)) |}.

(** [n] voices created in a row from reference [k]. *)
Fixpoint voices_from (k n : nat) : list DroneNode :=
  match n with
  | O => []
  | S n' => voice_at k :: voices_from (4 + k) n'
  end.

(** The node references of a voice. *)
Definition voice_ids (v : DroneNode) : list nat := [osc v; gain v; modOsc v; modGain v].

(** In the graph [g], [n] is an oscillator that was started and not yet
    told to stop. *)
Definition sounding_oscillator (g : gmap nat Node) (n : nat) : bool :=
  match g !! n with
  | Some {| kind := OscillatorNode _ _ true None |} => true
  | _ => false
  end.

(** In the graph [g], [n] is a gain node. *)
Definition is_gain (g : gmap nat Node) (n : nat) : bool :=
  match g !! n with
  | Some {| kind := GainNode _ |} => true
  | _ => false
  end.

(** The four nodes of the voice are there and its oscillators sound. *)
Definition live_voice (g : gmap nat Node) (v : DroneNode) : bool :=
  sounding_oscillator g (osc v) && is_gain g (gain v)
  && sounding_oscillator g (modOsc v) && is_gain g (modGain v).

(** The voices held by the hook are live and share no node. *)
Definition live_session (a : Audio) : Prop :=
  NoDup (concat (voice_ids <$> nodesRef a)) /\
  forallb (live_voice (graph a)) (nodesRef a) = true.

(** When the oscillator [n] was told to stop, if it was. *)
Definition stop_time (g : gmap nat Node) (n : nat) : option Q :=
  match g !! n with
  | Some {| kind := OscillatorNode _ _ _ e |} => e
  | _ => None
  end.

(** The automation scheduled on the gain of the node [n]. *)
Definition gain_events (g : gmap nat Node) (n : nat) : list ParamEvent :=
  match g !! n with
  | Some {| kind := GainNode p |} => events p
  | _ => []
  end.

(** The voice after [stop] at context time [now]: both gains end on an
    exponential ramp to 0.0001 at [now + 0.5], both oscillators stop at
    [now + 0.6], and no node has an outgoing connection left. *)
Definition voice_faded (g : gmap nat Node) (v : DroneNode) (now : Q) : Prop :=
  last (gain_events g (gain v)) = Some (ExponentialRampToValue 0.0001%Q (now + 0.5)%Q) /\
  last (gain_events g (modGain v)) = Some (ExponentialRampToValue 0.0001%Q (now + 0.5)%Q) /\
  stop_time g (osc v) = Some (now + 0.6)%Q /\
  stop_time g (modOsc v) = Some (now + 0.6)%Q /\
  forall n, n ∈ voice_ids v -> outputs <$> g !! n = Some [].

(** The context after [close]. *)
Definition closed (c : option AudioContext) : option AudioContext :=
  match c with
  | Some ctx => Some {| state := Closed; currentTime := currentTime ctx |}
  | None => None
  end.

(** The context after [resume], where there is one. *)
Definition resumed (ctx : AudioContext) : AudioContext :=
  match state ctx with
  | Suspended => {| state := Running; currentTime := currentTime ctx |}
  | _ => ctx
  end.

(** The context [start] works on: the one the hook holds, or a new one,
    resumed if it is suspended. *)
Definition context_of_start (a : Audio) : AudioContext :=
  match contextRef a with
  | Some ctx => resumed ctx
  | None => resumed {| state := initial_state (env a); currentTime := 0%Q |}
  end.

(** The context is running exactly while the drone sounds. *)
Definition running_iff_sounding (a : Audio) : Prop :=
  (Idle a /\ (contextRef a = None \/ state <$> contextRef a = Some Suspended)) \/
  (Sounding 4 a /\ state <$> contextRef a = Some Running).

(** The calls between [a] and [a'] created no audio context. *)
Definition no_new_context (a a' : Audio) : Prop :=
  new_contexts (trace a') = new_contexts (trace a).

(** A computation that creates no audio context, whether it returns or
    throws. *)
Definition context_free {A} (c : Eff Audio A) : Prop :=
  forall a, no_new_context a (c a).2.



(** * Facts *)

#[local] Arguments String.append !s1 s2 : simpl nomatch.

Lemma append_assoc (s1 s2 s3 : string) : (s1 +:+ s2) +:+ s3 = s1 +:+ s2 +:+ s3.
Proof. induction s1 as [|c s1 IH]; simpl; [reflexivity | by f_equal]. Qed.

Lemma append_length (s r : string) :
  String.length (s +:+ r) = (String.length s + String.length r)%nat.
Proof. induction s as [|c s IH]; cbn; [done | by rewrite IH]. Qed.

(** ** The calendar arithmetic of [localDate] *)

Module JsDateFacts.
Import JsDate.

Lemma day_of_year_bounds doe :
  0 <= doe < 146097 ->
  let yoe := (doe - doe / 1460 + doe / 36524 - doe / 146096) / 365 in
  let doy := doe - (365 * yoe + yoe / 4 - yoe / 100) in
  0 <= yoe <= 399 /\ 0 <= doy <= 365.
Proof. intros H yoe doy. subst doy yoe. Z.div_mod_to_equations. lia. Qed.

Lemma month_bounds doy :
  0 <= doy <= 365 ->
  let mp := (5 * doy + 2) / 153 in
  0 <= mp <= 11 /\ 1 <= doy - (153 * mp + 2) / 5 + 1 <= 31.
Proof. intros H mp. subst mp. Z.div_mod_to_equations. lia. Qed.

Lemma MakeDay_civil_of_day d :
  MakeDay (civil_of_day d).1.1 (civil_of_day d).1.2 (civil_of_day d).2 = d.
Proof.
  unfold civil_of_day. cbv zeta.
  set (z := d + 719468). set (era := z / 146097). set (doe := z - era * 146097).
  assert (0 <= doe < 146097) as Hdoe by (subst doe era; Z.div_mod_to_equations; lia).
  pose proof (day_of_year_bounds doe Hdoe) as Hy. cbv zeta in Hy.
  set (yoe := (doe - doe / 1460 + doe / 36524 - doe / 146096) / 365) in *.
  set (doy := doe - (365 * yoe + yoe / 4 - yoe / 100)) in *.
  destruct Hy as [Hyoe Hdoy].
  pose proof (month_bounds doy Hdoy) as Hm. cbv zeta in Hm.
  set (mp := (5 * doy + 2) / 153) in *.
  set (dom := doy - (153 * mp + 2) / 5 + 1) in *.
  destruct Hm as [Hmp Hdom].
  cbn [fst snd]. unfold MakeDay. cbv zeta.
  set (mon := if mp <? 10 then mp + 3 else mp - 9).
  assert (1 <= mon <= 12 /\ (if 2 <? mon then mon - 3 else mon + 9) = mp) as [Hmon Hmp'].
  { subst mon. destruct (Z.ltb_spec0 mp 10).
    - split; [lia|]. destruct (Z.ltb_spec0 2 (mp + 3)); lia.
    - split; [lia|]. destruct (Z.ltb_spec0 2 (mp - 9)); lia. }
  replace ((mon - 1) / 12) with 0 by (Z.div_mod_to_equations; lia).
  replace ((mon - 1) mod 12 + 1) with mon by (Z.div_mod_to_equations; lia).
  unfold day_of_civil. cbv zeta. rewrite Hmp'.
  replace (if mon <=? 2 then yoe + era * 400 + (if mon <=? 2 then 1 else 0) + 0 - 1
           else yoe + era * 400 + (if mon <=? 2 then 1 else 0) + 0)
    with (yoe + era * 400) by (destruct (mon <=? 2); lia).
  replace ((yoe + era * 400) / 400) with era by (Z.div_mod_to_equations; lia).
  clearbody yoe mp. subst dom doy doe z. Z.div_mod_to_equations. lia.
Qed.

Lemma year_range d :
  0 <= d <= 2932896 -> 1970 <= (civil_of_day d).1.1 <= 9999.
Proof.
  intros H. unfold civil_of_day. cbv zeta. cbn [fst snd].
  set (z := d + 719468). set (era := z / 146097). set (doe := z - era * 146097).
  assert (0 <= doe < 146097) as Hdoe by (subst doe era; Z.div_mod_to_equations; lia).
  pose proof (day_of_year_bounds doe Hdoe) as Hy. cbv zeta in Hy.
  set (yoe := (doe - doe / 1460 + doe / 36524 - doe / 146096) / 365) in *.
  set (doy := doe - (365 * yoe + yoe / 4 - yoe / 100)) in *.
  destruct Hy as [Hyoe Hdoy].
  pose proof (month_bounds doy Hdoy) as Hm. cbv zeta in Hm.
  set (mp := (5 * doy + 2) / 153) in *.
  set (mon := if mp <? 10 then mp + 3 else mp - 9).
  destruct Hm as [Hmp _].
  assert ((if mon <=? 2 then 1 else 0) = (if 10 <=? mp then 1 else 0)) as ->.
  { subst mon. destruct (Z.ltb_spec0 mp 10), (Z.leb_spec0 10 mp); try lia.
    - destruct (Z.leb_spec0 (mp + 3) 2); lia.
    - destruct (Z.leb_spec0 (mp - 9) 2); lia. }
  destruct (Z.leb_spec0 10 mp);
    clearbody era; subst mp doy yoe doe z; Z.div_mod_to_equations; lia.
Qed.

Lemma pad_length w n : String.length (pad w n) = w.
Proof.
  revert n. induction w as [|w IH]; intros n; cbn [pad]; [done|].
  rewrite append_length, IH. cbn. lia.
Qed.

Lemma iso_date_length y m d :
  0 <= y <= 9999 -> String.length (iso_date y m d) = 10%nat.
Proof.
  intros H. unfold iso_date, iso_year.
  destruct (Z.leb_spec0 0 y), (Z.leb_spec0 y 9999); try lia. cbn [andb].
  rewrite !append_length, !pad_length. reflexivity.
Qed.

Lemma slice0_append (s r : string) : slice0 (String.length s) (s +:+ r) = s.
Proof. unfold slice0. induction s as [|c s IH]; cbn; [by destruct r | by rewrite IH]. Qed.

(** The first ten characters of [toISOString] are the UTC date. *)
Lemma toISOString_date t :
  0 <= YearFromTime t <= 9999 ->
  slice0 10 (toISOString t) = iso_date (YearFromTime t) (MonthFromTime t) (DateFromTime t).
Proof.
  intros H. unfold toISOString. cbv zeta.
  rewrite <- (iso_date_length _ (MonthFromTime t) (DateFromTime t) H) at 1.
  apply slice0_append.
Qed.

(** The local midnight [new Date(y, m, d)] builds from the local date of
    [t], as a time value. *)
Lemma local_midnight tz t :
  ~ (0 <= getFullYear tz t <= 99) ->
  Date_ymd tz (getFullYear tz t) (getMonth tz t) (getDate tz t)
  = Day (LocalTime tz t) * msPerDay - tz * msPerMinute.
Proof.
  intros Hy. unfold Date_ymd, UTC.
  destruct (Z.leb_spec0 0 (getFullYear tz t)), (Z.leb_spec0 (getFullYear tz t) 99);
    try lia; cbn [andb];
    unfold getFullYear, getMonth, getDate, YearFromTime, MonthFromTime, DateFromTime;
    by rewrite MakeDay_civil_of_day.
Qed.

Lemma Day_local_midnight tz d :
  Day (d * msPerDay - tz * msPerMinute)
  = d + (if (0 <? tz) && (tz <=? 1440) then -1 else if (-1440 <? tz) && (tz <=? 0) then 0
         else Day (- tz * msPerMinute)).
Proof.
  unfold Day, msPerDay, msPerMinute.
  destruct (Z.ltb_spec0 0 tz), (Z.leb_spec0 tz 1440), (Z.ltb_spec0 (-1440) tz),
    (Z.leb_spec0 tz 0); cbn [andb]; Z.div_mod_to_equations; lia.
Qed.

(** West of UTC, and on UTC itself, [localDate] is the local calendar
    date (for the years 1970 to 9999). *)
Lemma localDate_west_of_UTC tz t :
  -1440 < tz <= 0 ->
  0 <= Day (LocalTime tz t) <= 2932896 ->
  localDate tz t = local_calendar_date tz t.
Proof.
  intros Htz Hd. pose proof (year_range _ Hd) as Hy.
  unfold localDate. rewrite local_midnight by (unfold getFullYear, YearFromTime; lia).
  assert (Day (Day (LocalTime tz t) * msPerDay - tz * msPerMinute) = Day (LocalTime tz t))
    as Hday.
  { rewrite Day_local_midnight.
    destruct (Z.ltb_spec0 0 tz), (Z.leb_spec0 tz 1440), (Z.ltb_spec0 (-1440) tz),
      (Z.leb_spec0 tz 0); cbn [andb]; lia. }
  rewrite toISOString_date; unfold YearFromTime, MonthFromTime, DateFromTime;
    rewrite Hday; [reflexivity | lia].
Qed.

(** East of UTC, [localDate] is the calendar date of the day before the
    local one (for the years 1970 to 9999). *)
Lemma localDate_previous_day_east_of_UTC tz t :
  0 < tz <= 1440 ->
  1 <= Day (LocalTime tz t) <= 2932896 ->
  localDate tz t = local_calendar_date tz (t - msPerDay).
Proof.
  intros Htz Hd.
  assert (0 <= Day (LocalTime tz t) <= 2932896) as Hd0 by lia.
  assert (0 <= Day (LocalTime tz t) - 1 <= 2932896) as Hd1 by lia.
  pose proof (year_range _ Hd0) as Hy0. pose proof (year_range _ Hd1) as Hy1.
  unfold localDate. rewrite local_midnight by (unfold getFullYear, YearFromTime; lia).
  assert (Day (Day (LocalTime tz t) * msPerDay - tz * msPerMinute)
          = Day (LocalTime tz t) - 1) as Hday.
  { rewrite Day_local_midnight.
    destruct (Z.ltb_spec0 0 tz), (Z.leb_spec0 tz 1440); cbn [andb]; lia. }
  assert (Day (LocalTime tz (t - msPerDay)) = Day (LocalTime tz t) - 1) as Hprev.
  { unfold Day, LocalTime, msPerDay, msPerMinute. Z.div_mod_to_equations. lia. }
  unfold local_calendar_date, getFullYear, getMonth, getDate.
  rewrite toISOString_date; unfold YearFromTime, MonthFromTime, DateFromTime;
    rewrite ?Hday, ?Hprev; [reflexivity | lia].
Qed.

End JsDateFacts.

(** ** The reference codec reads back the records the selector writes *)

Module JsonRefFacts.
Import JsonRef.

Lemma parse_chars_escape_char c tail :
  parse_chars (escape_char c +:+ tail) = prepend c (parse_chars tail).
Proof. destruct c as [[] [] [] [] [] [] [] []]; reflexivity. Qed.

Lemma parse_chars_escape s rest :
  parse_chars (escape s +:+ String dquote rest) = Some (s, rest).
Proof.
  induction s as [|c s IH]; [reflexivity|].
  cbn [escape]. rewrite append_assoc, parse_chars_escape_char, IH. reflexivity.
Qed.

Lemma parse_value_string n s rest :
  parse_value (S n) (String dquote (escape s +:+ String dquote rest)) = Some (JStr s, rest).
Proof. simpl. rewrite parse_chars_escape. reflexivity. Qed.

Lemma parse_members_step n s :
  parse_members (S n) s =
  match strip dquote (skip_ws s) with
  | None => None
  | Some r =>
      match parse_chars r with
      | None => None
      | Some (k, r1) =>
          match strip ":" (skip_ws r1) with
          | None => None
          | Some r2 =>
              match parse_value n r2 with
              | None => None
              | Some (v, r3) =>
                  match skip_ws r3 with
                  | EmptyString => None
                  | String c r4 =>
                      if Ascii.eqb c "}" then Some ([(k, v)], r4)
                      else if Ascii.eqb c "," then
                        match parse_members n r4 with
                        | Some (ps, r5) => Some ((k, v) :: ps, r5)
                        | None => None
                        end
                      else None
                  end
              end
          end
      end
  end.
Proof. reflexivity. Qed.

Lemma parse_members_last n k v rest :
  parse_members (S (S n)) (member_text k v (String "}" rest)) = Some ([(k, JStr v)], rest).
Proof.
  rewrite parse_members_step. unfold member_text. simpl skip_ws. simpl strip.
  cbv iota. rewrite parse_chars_escape.
  simpl skip_ws. simpl strip. cbv iota. rewrite parse_value_string. reflexivity.
Qed.

Lemma parse_members_two n k1 v1 k2 v2 rest :
  parse_members (S (S (S n)))
    (member_text k1 v1 (String "," (member_text k2 v2 (String "}" rest))))
  = Some ([(k1, JStr v1); (k2, JStr v2)], rest).
Proof.
  rewrite parse_members_step. unfold member_text at 1. simpl skip_ws. simpl strip.
  cbv iota. rewrite parse_chars_escape.
  simpl skip_ws. simpl strip. cbv iota. rewrite parse_value_string.
  simpl skip_ws. cbv iota. simpl Ascii.eqb. cbv iota.
  rewrite parse_members_last. reflexivity.
Qed.

Lemma stringify_record d q :
  stringify (record_of d q) =
  String "{" (member_text "date" d (String "," (member_text "quoteId" q "}"))).
Proof.
  unfold record_of, member_text. cbn [stringify join]. unfold quoted.
  cbn. repeat (rewrite append_assoc; cbn). reflexivity.
Qed.

Lemma parse_value_record n d q :
  parse_value (S (S (S (S n)))) (stringify (record_of d q))
  = Some (record_of d q, EmptyString).
Proof.
  rewrite stringify_record.
  change (parse_value (S (S (S (S n)))) (String "{" ?x)) with
    (match parse_members (S (S (S n))) x with
     | Some (ps, r') => Some (JObj ps, r')
     | None => None
     end).
  rewrite parse_members_two. reflexivity.
Qed.

(** [JSON.parse(JSON.stringify({date, quoteId}))] is the record again. *)
Lemma parse_stringify_record d q : parse (stringify (record_of d q)) = Some (record_of d q).
Proof.
  unfold parse.
  assert (exists n, String.length (stringify (record_of d q)) = S (S (S n))) as [n ->].
  { rewrite stringify_record. simpl. eauto. }
  rewrite parse_value_record. reflexivity.
Qed.

(** The text of a record is never the empty string. *)
Lemma stringify_record_truthy d q : truthy_string (stringify (record_of d q)) = true.
Proof. rewrite stringify_record. reflexivity. Qed.

End JsonRefFacts.

(** ** The daily quote selector *)

Section DailyQuoteFacts.

Variable dailyQuotes : list Quote.
Variable JSON_parse : string -> option json.
Variable JSON_stringify : json -> string.

Abbreviation resolve := (resolveQuoteId dailyQuotes JSON_parse JSON_stringify).
Abbreviation stored := (stored_of JSON_parse).

Lemma read_stored_available w :
  storage_available w = true ->
  read_stored JSON_parse w
  = (Normal (stored (items w !! STORAGE_KEY)), log (GetItem STORAGE_KEY) w).
Proof.
  intros Hav. unfold read_stored, try_catch, bind, localStorage_getItem, stored_of.
  rewrite Hav. destruct (items w !! STORAGE_KEY) as [r|]; [|reflexivity].
  destruct (truthy_string r); [|reflexivity].
  destruct (JSON_parse r); reflexivity.
Qed.

Lemma read_stored_unavailable w :
  storage_available w = false -> read_stored JSON_parse w = (Normal JNull, w).
Proof.
  intros Hav. unfold read_stored, try_catch, bind, localStorage_getItem.
  rewrite Hav. reflexivity.
Qed.

(** With a non-empty table the draw always selects a quote of the table. *)
Lemma select_nonempty r :
  dailyQuotes <> [] -> exists q, select dailyQuotes r = Some q /\ q ∈ dailyQuotes.
Proof.
  intros Hne. unfold select, index.
  destruct (_ <? 0).
  - destruct dailyQuotes as [|q l]; [done|]. exists q. split; [done | left].
  - destruct (dailyQuotes !! Z.to_nat _) as [q|] eqn:E.
    + exists q. split; [done|]. by eapply list_elem_of_lookup_2.
    + destruct dailyQuotes as [|q l]; [done|]. exists q. split; [done | left].
Qed.

(** The call when the stored value carries today's date: the stored
    [quoteId] is returned, whatever it is, after one read. *)
Lemma resolve_reuse w :
  has_window w = true -> storage_available w = true ->
  strict_eq_string (opt_member (stored (items w !! STORAGE_KEY)) "date")
    (localDate (tz w) (now w)) = true ->
  resolve w = (Normal (opt_member (stored (items w !! STORAGE_KEY)) "quoteId"),
               log (GetItem STORAGE_KEY) w).
Proof.
  intros Hw Hav Hd. unfold resolveQuoteId, bind at 1, get. rewrite Hw. cbn [negb].
  unfold bind at 1. rewrite read_stored_available by done. rewrite Hd.
  destruct (stored (items w !! STORAGE_KEY)); try discriminate. reflexivity.
Qed.

(** The call when it does not, on a storage that accepts the write. *)
Lemma resolve_select w q :
  has_window w = true -> storage_available w = true -> storage_writable w = true ->
  strict_eq_string (opt_member (stored (items w !! STORAGE_KEY)) "date")
    (localDate (tz w) (now w)) = false ->
  select dailyQuotes (rand w (rand_pos w)) = Some q ->
  resolve w = (Normal (Val (JStr (id q))), after_selection JSON_stringify w q).
Proof.
  intros Hw Hav Hwr Hd Hq. unfold resolveQuoteId, bind at 1, get. rewrite Hw. cbn [negb].
  unfold bind at 1. rewrite read_stored_available by done. rewrite Hd.
  unfold bind at 1, Math_random. cbn [rand rand_pos log next_rand]. rewrite Hq.
  unfold bind, localStorage_setItem, ret. cbn. rewrite Hav, Hwr. reflexivity.
Qed.


(** C10. Without a [window] (server-side rendering) the selector returns
    the id of the first quote, or the empty string when the table is
    empty, and leaves the world as it found it: no storage call is made
    and no random value is drawn. *)
Theorem resolveQuoteId_without_window w :
  has_window w = false ->
  resolveQuoteId dailyQuotes JSON_parse JSON_stringify w
  = (Normal (Val (JStr (match dailyQuotes with q :: _ => id q | [] => "" end))), w).
Proof.
  intros Hw. unfold resolveQuoteId, bind, get. rewrite Hw. cbn [negb].
  destruct dailyQuotes; reflexivity.
Qed.

(** C7. Resolution of a quote id never fails and falls back twice: a
    quote of the table carrying the id is shown (the quote itself when
    ids are unique); when no quote carries it and the table is not empty,
    the first quote is shown; when the table is empty, the text and the
    source are empty. *)
Theorem useDailyQuote_two_level_fallback language quoteId :
  (forall q, q ∈ dailyQuotes -> quoteId = Val (JStr (id q)) ->
     (exists q', q' ∈ dailyQuotes /\ id q' = id q /\
        useDailyQuote dailyQuotes language quoteId = localized_view q' language) /\
     (NoDup (id <$> dailyQuotes) ->
        useDailyQuote dailyQuotes language quoteId = localized_view q language)) /\
  (forall q0 rest, dailyQuotes = q0 :: rest ->
     (forall q, q ∈ dailyQuotes -> quoteId <> Val (JStr (id q))) ->
     useDailyQuote dailyQuotes language quoteId = localized_view q0 language) /\
  (dailyQuotes = [] ->
     useDailyQuote dailyQuotes language quoteId
     = {| view_text := Some ""%string; view_source := Some ""%string |}).
Proof.
  split; [|split].
  - intros q Hin ->. unfold useDailyQuote, find_quote.
    destruct (List.find _ dailyQuotes) as [q'|] eqn:Hf.
    + apply List.find_some in Hf as [Hin' Heq]. cbn in Heq.
      apply String.eqb_eq in Heq.
      split.
      * exists q'. split; [by apply list_elem_of_In|]. by split.
      * intros Hnd. assert (q' = q) as ->; [|reflexivity].
        apply list_elem_of_In in Hin'.
        apply list_elem_of_lookup in Hin as [i Hi].
        apply list_elem_of_lookup in Hin' as [j Hj].
        assert (i = j) as ->; [|congruence].
        eapply NoDup_lookup; [exact Hnd | |]; rewrite list_lookup_fmap.
        -- by rewrite Hi.
        -- rewrite Hj. cbn. by rewrite Heq.
    + exfalso. apply list_elem_of_In in Hin.
      eapply List.find_none in Hf; [|exact Hin]. cbn in Hf.
      by rewrite String.eqb_refl in Hf.
  - intros q0 rest Hl Hno. unfold useDailyQuote, find_quote.
    destruct (List.find _ dailyQuotes) as [q'|] eqn:Hf.
    + apply List.find_some in Hf as [Hin' Heq]. exfalso.
      apply (Hno q'); [by apply list_elem_of_In|].
      destruct quoteId as [|[]]; try discriminate. cbn in Heq.
      apply String.eqb_eq in Heq. by subst.
    + by rewrite Hl.
  - intros ->. reflexivity.
Qed.

(** C8. [fetchLocalized] returns the value of the requested language
    when the mapping has one and the English value otherwise; the text
    and the source of the daily quote follow the same rule. *)
Theorem fetchLocalized_falls_back_to_English value language :
  (forall v, value !! lang_key language = Some v ->
     fetchLocalized value language = Some v) /\
  (value !! lang_key language = None ->
     fetchLocalized value language = value !! "en"%string) /\
  (forall q quoteId, find_quote dailyQuotes quoteId = Some q ->
     view_text (useDailyQuote dailyQuotes language quoteId)
     = match text q !! lang_key language with
       | Some v => Some v
       | None => text q !! "en"%string
       end /\
     view_source (useDailyQuote dailyQuotes language quoteId)
     = match source q !! lang_key language with
       | Some v => Some v
       | None => source q !! "en"%string
       end).
Proof.
  unfold fetchLocalized. split; [|split].
  - by intros v ->.
  - by intros ->.
  - intros q quoteId Hq. unfold useDailyQuote. rewrite Hq. by split.
Qed.

(** Two calls on the same local day compute the same [localDate]. *)
Lemma localDate_same_day tz t1 t2 :
  same_local_day tz t1 t2 -> localDate tz t1 = localDate tz t2.
Proof.
  unfold same_local_day, localDate, JsDate.getFullYear, JsDate.getMonth, JsDate.getDate,
    JsDate.YearFromTime, JsDate.MonthFromTime, JsDate.DateFromTime.
  by intros ->.
Qed.

Section Codec.

(** What the selector needs of the platform's codec: parsing the text
    of a record gives the record back, and that text is not empty. *)
Hypothesis parse_stringify :
  forall d q, JSON_parse (JSON_stringify (record_of d q)) = Some (record_of d q).
Hypothesis stringify_truthy :
  forall d q, truthy_string (JSON_stringify (record_of d q)) = true.

(** C4. With a window, a working storage and a non-empty table, two
    calls on the same local calendar day, the second on the world the
    first left, return the same quote id. The first call leaves under the
    key a record dated today whose [quoteId] is the value it returned;
    when it found no record dated today, that value is the id of a quote
    of the table and the record is the one it persisted for that quote.
    The second call finds that record and reuses its [quoteId]; it only
    reads the storage: it draws no random value and writes nothing. *)
Theorem resolveQuoteId_same_day w t2 :
  has_window w = true -> storage_available w = true -> storage_writable w = true ->
  dailyQuotes <> [] ->
  same_local_day (tz w) (now w) t2 ->
  exists v w1,
    resolveQuoteId dailyQuotes JSON_parse JSON_stringify w = (Normal v, w1) /\
    strict_eq_string (opt_member (stored_of JSON_parse (items w1 !! STORAGE_KEY)) "date")
      (localDate (tz w) (now w)) = true /\
    opt_member (stored_of JSON_parse (items w1 !! STORAGE_KEY)) "quoteId" = v /\
    (strict_eq_string (opt_member (stored_of JSON_parse (items w !! STORAGE_KEY)) "date")
       (localDate (tz w) (now w)) = false ->
     exists q,
       q ∈ dailyQuotes /\ v = Val (JStr (id q)) /\
       rand_pos w1 = S (rand_pos w) /\
       items w1 !! STORAGE_KEY
       = Some (JSON_stringify (record_of (localDate (tz w) (now w)) (id q)))) /\
    resolveQuoteId dailyQuotes JSON_parse JSON_stringify (set_now t2 w1)
    = (Normal v, log (GetItem STORAGE_KEY) (set_now t2 w1)).
Proof.
  intros Hw Hav Hwr Hne Hday.
  pose proof (localDate_same_day _ _ _ Hday) as Hld.
  destruct (strict_eq_string (opt_member (stored (items w !! STORAGE_KEY)) "date")
              (localDate (tz w) (now w))) eqn:Hd.
  - eexists _, _. split; [by apply resolve_reuse|].
    cbn [items log]. split; [done|]. split; [done|]. split; [done|].
    rewrite resolve_reuse; [reflexivity | done | done |]. cbn. by rewrite <- Hld.
  - destruct (select_nonempty (rand w (rand_pos w)) Hne) as (q & Hq & Hin).
    assert (stored (items (after_selection JSON_stringify w q) !! STORAGE_KEY)
            = record_of (localDate (tz w) (now w)) (id q)) as Hst.
    { unfold after_selection. cbn. rewrite lookup_insert_eq. cbn.
      by rewrite stringify_truthy, parse_stringify. }
    eexists _, _. split; [by apply resolve_select|].
    rewrite Hst. split; [cbn; by rewrite String.eqb_refl|]. split; [done|]. split.
    + intros _. exists q. split; [done|]. split; [done|].
      unfold after_selection. cbn. by rewrite lookup_insert_eq.
    + rewrite resolve_reuse.
      * cbn [items set_now]. by rewrite Hst.
      * done.
      * done.
      * cbn [items set_now tz now]. rewrite Hst. cbn. rewrite <- Hld.
        by rewrite String.eqb_refl.
Qed.

End Codec.

(** Without a record for today the call ends as the draw and the
    storage decide. *)
Lemma resolve_fresh w :
  has_window w = true ->
  strict_eq_string
    (opt_member (stored (if storage_available w then items w !! STORAGE_KEY else None)) "date")
    (localDate (tz w) (now w)) = false ->
  (resolve w).1
  = match select dailyQuotes (rand w (rand_pos w)) with
    | Some q =>
        if storage_available w then
          if storage_writable w then Normal (Val (JStr (id q)))
          else Throw QuotaExceededError
        else Throw SecurityError
    | None => Normal (Val (JStr ""))
    end.
Proof.
  intros Hw Hd. unfold resolveQuoteId, bind at 1, get. rewrite Hw. cbn [negb].
  unfold bind at 1.
  destruct (storage_available w) eqn:Hav.
  - rewrite read_stored_available by done. rewrite Hd.
    unfold bind at 1, Math_random. cbn [rand rand_pos log next_rand].
    destruct (select dailyQuotes _); [|reflexivity].
    unfold bind, localStorage_setItem, ret. cbn. rewrite Hav.
    destruct (storage_writable w); reflexivity.
  - rewrite read_stored_unavailable by done. cbn in Hd |- *.
    unfold bind at 1, Math_random. cbn [rand rand_pos log next_rand].
    destruct (select dailyQuotes _); [|reflexivity].
    unfold bind, localStorage_setItem, ret. cbn. rewrite Hav. reflexivity.
Qed.

(** With a storage that refuses writes, a non-empty table and nothing
    stored, the QuotaExceededError of [setItem] reaches the caller. *)
Lemma resolve_unwritable_throws w :
  has_window w = true -> storage_available w = true -> storage_writable w = false ->
  dailyQuotes <> [] -> items w !! STORAGE_KEY = None ->
  (resolve w).1 = Throw QuotaExceededError.
Proof.
  intros Hw Hav Hwr Hne Hnone. rewrite resolve_fresh; [|done|].
  - destruct (select_nonempty (rand w (rand_pos w)) Hne) as (q & -> & _).
    by rewrite Hav, Hwr.
  - by rewrite Hav, Hnone.
Qed.

Lemma stored_undated today raw :
  dated_today JSON_parse today raw = false ->
  strict_eq_string (opt_member (stored (Some raw)) "date") today = false.
Proof.
  unfold dated_today, stored_of. intros H.
  destruct (truthy_string raw); [|reflexivity].
  destruct (JSON_parse raw); [exact H | reflexivity].
Qed.

(** C3, as amended. A stored text that does not parse, or whose parsed
    value does not carry today's date in its [date] field, is handled
    exactly as a missing one: the two calls end the same way; on a working
    storage the call does not throw; and with a non-empty table both calls
    return the id of a freshly drawn quote and leave the same world, in
    which the new record is stored. *)
Theorem resolveQuoteId_undated_as_absent w raw :
  has_window w = true ->
  dated_today JSON_parse (localDate (tz w) (now w)) raw = false ->
  (resolveQuoteId dailyQuotes JSON_parse JSON_stringify (with_item raw w)).1
  = (resolveQuoteId dailyQuotes JSON_parse JSON_stringify (without_item w)).1 /\
  (storage_available w = true -> storage_writable w = true ->
   exists v,
     (resolveQuoteId dailyQuotes JSON_parse JSON_stringify (with_item raw w)).1
     = Normal v) /\
  (storage_available w = true -> storage_writable w = true -> dailyQuotes <> [] ->
   exists q,
     q ∈ dailyQuotes /\
     resolveQuoteId dailyQuotes JSON_parse JSON_stringify (with_item raw w)
     = (Normal (Val (JStr (id q))), after_selection JSON_stringify w q) /\
     resolveQuoteId dailyQuotes JSON_parse JSON_stringify (without_item w)
     = (Normal (Val (JStr (id q))), after_selection JSON_stringify w q) /\
     items (after_selection JSON_stringify w q) !! STORAGE_KEY
     = Some (JSON_stringify (record_of (localDate (tz w) (now w)) (id q)))).
Proof.
  intros Hw Hraw. apply stored_undated in Hraw.
  assert (forall b : bool,
    strict_eq_string
      (opt_member (stored (if b then items (with_item raw w) !! STORAGE_KEY else None)) "date")
      (localDate (tz w) (now w)) = false) as Hwith.
  { intros []; [|reflexivity]. cbn. by rewrite lookup_insert_eq. }
  assert (forall b : bool,
    strict_eq_string
      (opt_member (stored (if b then items (without_item w) !! STORAGE_KEY else None)) "date")
      (localDate (tz w) (now w)) = false) as Hwithout.
  { intros []; [|reflexivity]. cbn. by rewrite lookup_delete_eq. }
  split; [|split].
  - rewrite !resolve_fresh; [reflexivity | done | apply Hwithout | done | apply Hwith].
  - intros Hav Hwr. rewrite resolve_fresh; [|done|apply Hwith].
    cbn [storage_available storage_writable with_item set_items]. rewrite Hav, Hwr.
    destruct (select dailyQuotes _); eauto.
  - intros Hav Hwr Hne.
    destruct (select_nonempty (rand w (rand_pos w)) Hne) as (q & Hq & Hin).
    exists q. split; [done|]. split; [|split].
    + rewrite (resolve_select (with_item raw w) q); [|done|done|done| |done].
      * f_equal. unfold after_selection, with_item. cbn. by rewrite insert_insert_eq.
      * apply (Hwith true).
    + rewrite (resolve_select (without_item w) q); [|done|done|done| |done].
      * f_equal. unfold after_selection, without_item. cbn. by rewrite insert_delete_eq.
      * apply (Hwithout true).
    + cbn. by rewrite lookup_insert_eq.
Qed.

End DailyQuoteFacts.

(** ** The selector in a concrete browser *)


(** Server-side rendering of the scenario: the first quote, the world
    untouched. *)
Lemma resolveQuoteId_without_window_witness :
  resolve_scenario server = (Normal (Val (JStr "q1")), server).
Proof.
  exact (resolveQuoteId_without_window two_quotes JsonRef.parse JsonRef.stringify
           server eq_refl).
Defined.

(** The three cases on the scenario's table: a known id, [undefined],
    and an empty table. *)
Lemma useDailyQuote_two_level_fallback_witness :
  useDailyQuote two_quotes en (Val (JStr "q2")) = localized_view quote_q2 en /\
  useDailyQuote two_quotes en Undefined = localized_view quote_q1 en /\
  useDailyQuote [] en (Val (JStr "q2"))
  = {| view_text := Some ""%string; view_source := Some ""%string |}.
Proof.
  split; [|split].
  - apply (useDailyQuote_two_level_fallback two_quotes en (Val (JStr "q2"))).
    + right. left.
    + reflexivity.
    + apply (bool_decide_unpack _). reflexivity.
  - apply (proj1 (proj2 (useDailyQuote_two_level_fallback two_quotes en Undefined))
             quote_q1 [quote_q2] eq_refl).
    intros q _. discriminate.
  - exact (proj2 (proj2 (useDailyQuote_two_level_fallback [] en (Val (JStr "q2")))) eq_refl).
Defined.

(** The text of [q2], which is only in English, asked in English and in
    Hindi. *)
Lemma fetchLocalized_falls_back_to_English_witness :
  fetchLocalized (text quote_q2) en = Some "B"%string /\
  fetchLocalized (text quote_q2) hi = text quote_q2 !! "en"%string.
Proof.
  split.
  - apply (proj1 (fetchLocalized_falls_back_to_English two_quotes (text quote_q2) en)).
    reflexivity.
  - apply (proj1 (proj2 (fetchLocalized_falls_back_to_English two_quotes (text quote_q2) hi))).
    reflexivity.
Defined.

(** Two visits on 2024-03-10, at 11:00 and one millisecond before 23:00
    UTC, with the reference codec and nothing stored before the first. *)
Lemma resolveQuoteId_same_day_witness :
  exists v w1,
    resolve_scenario (browser 0) = (Normal v, w1) /\
    strict_eq_string
      (opt_member (stored_of JsonRef.parse (items w1 !! STORAGE_KEY)) "date")
      (localDate 0 1710068400000) = true /\
    opt_member (stored_of JsonRef.parse (items w1 !! STORAGE_KEY)) "quoteId" = v /\
    (strict_eq_string
       (opt_member (stored_of JsonRef.parse (items (browser 0) !! STORAGE_KEY)) "date")
       (localDate 0 1710068400000) = false ->
     exists q,
       q ∈ two_quotes /\ v = Val (JStr (id q)) /\
       rand_pos w1 = S (rand_pos (browser 0)) /\
       items w1 !! STORAGE_KEY
       = Some (JsonRef.stringify (record_of (localDate 0 1710068400000) (id q)))) /\
    resolve_scenario (set_now 1710111599999 w1)
    = (Normal v, log (GetItem STORAGE_KEY) (set_now 1710111599999 w1)).
Proof.
  apply (resolveQuoteId_same_day two_quotes JsonRef.parse JsonRef.stringify
           JsonRefFacts.parse_stringify_record JsonRefFacts.stringify_record_truthy
           (browser 0) 1710111599999); try reflexivity.
  discriminate.
Defined.

(** A stored text that is not JSON, in the browser of the scenario. *)
Lemma resolveQuoteId_undated_as_absent_witness :
  (resolve_scenario (with_item "{oops" (browser 0))).1
  = (resolve_scenario (without_item (browser 0))).1.
Proof.
  apply (resolveQuoteId_undated_as_absent two_quotes JsonRef.parse JsonRef.stringify
           (browser 0) "{oops"); reflexivity.
Defined.

(** The scenario of the specification: no record, the draw selects
    [q2], the record for today is persisted and [q2] is shown. *)
Example scenario_first_visit :
  (resolve_scenario (browser 0)).1 = Normal (Val (JStr "q2")) /\
  items (resolve_scenario (browser 0)).2 !! STORAGE_KEY
  = Some (JsonRef.stringify (record_of "2024-03-10" "q2")) /\
  useDailyQuote two_quotes en (Val (JStr "q2"))
  = {| view_text := Some "B"%string; view_source := Some "S2"%string |}.
Proof. vm_compute. repeat split. Qed.

(** A record of another day is replaced by one for today. *)
Example scenario_stale_record :
  let old := JsonRef.stringify (record_of "2099-01-01" "q1") in
  (resolve_scenario (with_item old (browser 0))).1 = Normal (Val (JStr "q2")) /\
  items (resolve_scenario (with_item old (browser 0))).2 !! STORAGE_KEY
  = Some (JsonRef.stringify (record_of "2024-03-10" "q2")).
Proof. vm_compute. repeat split. Qed.

(** C3, as stated, fails. On 2024-03-10 the stored object
    [{date: "2024-03-10"}] is malformed (it has no [quoteId]), yet the
    selector does not treat it as absent: it returns [undefined], draws
    nothing and persists nothing, where a missing record makes it draw
    [q2] and persist it. *)
Lemma malformed_record_dated_today_not_absent :
  malformed JsonRef.parse dated_without_quoteId = true /\
  resolve_scenario (with_item dated_without_quoteId (browser 0))
  = (Normal Undefined, log (GetItem STORAGE_KEY) (with_item dated_without_quoteId (browser 0))) /\
  (resolve_scenario (without_item (browser 0))).1 = Normal (Val (JStr "q2")) /\
  (resolve_scenario (with_item dated_without_quoteId (browser 0))).1
  <> (resolve_scenario (without_item (browser 0))).1.
Proof.
  assert (malformed JsonRef.parse dated_without_quoteId = true) as Hm by (vm_compute; reflexivity).
  assert (resolve_scenario (with_item dated_without_quoteId (browser 0))
          = (Normal Undefined,
             log (GetItem STORAGE_KEY) (with_item dated_without_quoteId (browser 0)))) as Hr.
  { rewrite resolve_reuse;
      [reflexivity | reflexivity | reflexivity | vm_compute; reflexivity]. }
  assert ((resolve_scenario (without_item (browser 0))).1 = Normal (Val (JStr "q2"))) as Ha
    by (vm_compute; reflexivity).
  repeat split; try assumption.
  rewrite Hr, Ha. discriminate.
Qed.

(** C1 fails on the code. One hour east of UTC, at noon of 2024-03-10
    local time, [localDate] is the day before: the local midnight that
    [new Date(y, m, d)] builds is 23:00 of 2024-03-09 in UTC, which is
    what [toISOString] prints; the persisted record carries that date. *)
Theorem localDate_one_hour_east_is_previous_day :
  local_calendar_date 60 (now (browser 60)) = "2024-03-10"%string /\
  localDate 60 (now (browser 60)) = "2024-03-09"%string /\
  items (resolve_scenario (browser 60)).2 !! STORAGE_KEY
  = Some (JsonRef.stringify (record_of "2024-03-09" "q2")).
Proof. vm_compute. repeat split. Qed.

(** C2 fails on the code. With a storage that refuses writes and no
    record for today, the selector throws the QuotaExceededError of
    [setItem] to its caller; when the storage cannot be reached at all it
    throws the SecurityError. *)
Theorem resolveQuoteId_throws_on_write_failure :
  (resolve_scenario browser_full_storage).1 = Throw QuotaExceededError /\
  (resolve_scenario browser_blocked_storage).1 = Throw SecurityError.
Proof. vm_compute. repeat split. Qed.

(** ** The drone *)

Ltac map_lookup :=
  repeat first
    [ rewrite lookup_insert_eq
    | rewrite lookup_alter_eq
    | rewrite lookup_insert_ne by lia
    | rewrite lookup_alter_ne by lia ].

Tactic Notation "world_norm" :=
  cbn [env contextRef nodesRef isActive graph allocated drawn trace
       set_contextRef set_nodesRef set_isActive set_graph set_allocated set_drawn
       called set_state osc gain modOsc modGain].
Tactic Notation "world_norm" "in" hyp(H) :=
  cbn [env contextRef nodesRef isActive graph allocated drawn trace
       set_contextRef set_nodesRef set_isActive set_graph set_allocated set_drawn
       called set_state osc gain modOsc modGain] in H.

Lemma spread_parity index :
  (if Nat.eqb (index mod 2) 0 then 0.1%Q else (- 0.08)%Q) = spread_at index.
Proof.
  unfold spread_at.
  destruct (Nat.even index) eqn:He.
  - apply Nat.even_spec in He as [m ->].
    replace ((2 * m) mod 2)%nat with 0%nat; [reflexivity|].
    symmetry. rewrite Nat.mul_comm. apply Nat.Div0.mod_mul.
  - assert (Nat.odd index = true) as Ho by (by rewrite <- Nat.negb_even, He).
    apply Nat.odd_spec in Ho as [m ->].
    replace ((2 * m + 1) mod 2)%nat with 1%nat; [reflexivity|].
    symmetry. rewrite Nat.add_comm, Nat.mul_comm, Nat.Div0.mod_add. reflexivity.
Qed.

(** One run of the callback of [start]: four fresh nodes, wired and
    started, three calls on the trace, one random draw. *)
Lemma start_voice_spec now freq index a :
  exists a',
    start_voice now freq index a
    = (Normal {| osc := allocated a; gain := S (allocated a);
                 modOsc := S (S (allocated a)); modGain := S (S (S (allocated a))) |}, a') /\
    same_hook a a' /\
    allocated a' = S (S (S (S (allocated a)))) /\
    drawn a' = S (drawn a) /\
    trace a' = trace a ++ [CallStart (S (S (allocated a))); CallStart (allocated a);
                           CallLinearRamp (S (allocated a)) 0.08%Q (now + 2)%Q] /\
    voice_built (graph a')
      {| osc := allocated a; gain := S (allocated a);
         modOsc := S (S (allocated a)); modGain := S (S (S (allocated a))) |}
      freq (rng (env a) (drawn a)) index now /\
    (forall j, (j < allocated a)%nat -> graph a' !! j = graph a !! j).
Proof.
  unfold start_voice. rewrite spread_parity.
  unfold bind, createOscillator, createGain, new_node, set_type, set_frequency_value,
    set_gain_value, connect, update_node, modify, random, ret.
  world_norm.
  unfold osc_start at 1. world_norm. map_lookup. cbn -[spread_at Qplus Qmult Qopp].
  unfold osc_start at 1. world_norm. map_lookup. cbn -[spread_at Qplus Qmult Qopp].
  unfold gain_linearRamp at 1. world_norm. map_lookup. cbn -[spread_at Qplus Qmult Qopp].
  eexists. split; [reflexivity|].
  unfold same_hook, voice_built. world_norm.
  split; [done|]. split; [done|]. split; [done|].
  split; [by rewrite <- !app_assoc|].
  split.
  - repeat split; map_lookup; reflexivity.
  - intros j Hj. map_lookup. reflexivity.
Qed.

Lemma before_app_r t t' c1 c2 : before t c1 c2 -> before (t ++ t') c1 c2.
Proof.
  intros (t1 & t2 & t3 & ->). exists t1, t2, (t3 ++ t').
  rewrite <- !app_assoc. cbn. rewrite <- !app_assoc. reflexivity.
Qed.

Lemma same_hook_refl a : same_hook a a.
Proof. by repeat split. Qed.

Lemma same_hook_trans a b c : same_hook a b -> same_hook b c -> same_hook a c.
Proof. unfold same_hook. intros (-> & -> & -> & ->) (-> & -> & -> & ->). done. Qed.

Lemma start_voices_spec now freqs :
  forall index acc a,
  exists a' vs,
    start_voices now freqs index acc a = (Normal (acc ++ vs), a') /\
    same_hook a a' /\
    (allocated a <= allocated a')%nat /\
    drawn a' = (drawn a + length freqs)%nat /\
    (exists t, trace a' = trace a ++ t) /\
    (forall j, (j < allocated a)%nat -> graph a' !! j = graph a !! j) /\
    voices_built a' now freqs index (fun i => rng (env a) (drawn a + i)%nat) vs.
Proof.
  induction freqs as [|freq rest IH]; intros index acc a.
  - exists a, []. cbn. rewrite app_nil_r, Nat.add_0_r.
    split; [done|]. split; [apply same_hook_refl|]. split; [done|]. split; [done|].
    split; [exists []; by rewrite app_nil_r|]. split; [done|]. split; [done|].
    intros i v Hi. by rewrite lookup_nil in Hi.
  - destruct (start_voice_spec now freq index a)
      as (a1 & Hrun & Hhook & Halloc & Hdrawn & Htrace & Hbuilt & Hframe).
    destruct (IH (S index) (acc ++ [{| osc := allocated a; gain := S (allocated a);
                 modOsc := S (S (allocated a)); modGain := S (S (S (allocated a))) |}]) a1)
      as (a' & vs & Hrun' & Hhook' & Halloc' & Hdrawn' & (t & Htrace') & Hframe' & Hlen & Hvs).
    exists a', ({| osc := allocated a; gain := S (allocated a);
                  modOsc := S (S (allocated a)); modGain := S (S (S (allocated a))) |} :: vs).
    split.
    { cbn [start_voices]. unfold bind. rewrite Hrun, Hrun'.
      by rewrite <- app_assoc. }
    split; [by eapply same_hook_trans|].
    split; [lia|].
    split; [cbn [length]; lia|].
    split.
    { eexists. rewrite Htrace', Htrace, <- app_assoc. reflexivity. }
    split.
    { intros j Hj. rewrite Hframe' by lia. by apply Hframe. }
    split; [cbn [length]; lia|].
    intros [|i] v Hi.
    + cbn in Hi. injection Hi as <-. exists freq. split; [done|].
      cbn beta. rewrite !Nat.add_0_r. split.
      * destruct Hbuilt as (H1 & H2 & H3 & H4). unfold voice_built.
        cbn [osc gain modOsc modGain] in *.
        rewrite !Hframe' by lia. done.
      * rewrite Htrace', Htrace. split; apply before_app_r.
        -- exists (trace a ++ [CallStart (S (S (allocated a)))]), [], [].
           cbn. by rewrite <- app_assoc.
        -- exists (trace a), [CallStart (allocated a)], []. reflexivity.
    + cbn in Hi. destruct (Hvs i v Hi) as (f & Hf & Hb & Hb1 & Hb2).
      exists f. split; [done|].
      destruct Hhook as (Henv & _).
      rewrite Henv, Hdrawn in Hb.
      replace (S (drawn a) + i)%nat with (drawn a + S i)%nat in Hb by lia.
      replace (S index + i)%nat with (index + S i)%nat in Hb by lia.
      done.
Qed.

Lemma start_unsupported a :
  audio_supported (env a) = false -> start a = (Normal tt, a).
Proof.
  unfold audio_supported, start, bind, get. intros H.
  destruct (window_defined (env a)); [|reflexivity].
  cbn in H. rewrite H. reflexivity.
Qed.

(** The end of [start]: build the voices, record them, set the state. *)
Lemma start_tail now w :
  exists a1,
    (do oscillators <- start_voices now DRONE_FREQUENCIES 0 [];
     modify (set_nodesRef oscillators) ;; setIsActive true) w = (Normal tt, a1) /\
    isActive a1 = true /\ env a1 = env w /\ contextRef a1 = contextRef w /\
    voices_built a1 now DRONE_FREQUENCIES 0
      (fun i => rng (env w) (drawn w + i)%nat) (nodesRef a1).
Proof.
  destruct (start_voices_spec now DRONE_FREQUENCIES 0%nat [] w)
    as (a' & vs & Hrun & (Henv & Hctx & _ & _) & _ & _ & _ & _ & Hlen & Hvs).
  eexists. split.
  { unfold bind at 1. rewrite Hrun. reflexivity. }
  world_norm. split_and!; by eauto.
Qed.

Lemma start_supported a :
  audio_supported (env a) = true ->
  exists a1,
    start a = (Normal tt, a1) /\
    isActive a1 = true /\ env a1 = env a /\
    is_Some (contextRef a1) /\ now_of a1 = now_of a /\
    voices_built a1 (now_of a) DRONE_FREQUENCIES 0
      (fun i => rng (env a) (drawn a + i)%nat) (nodesRef a1).
Proof.
  unfold audio_supported. intros H. apply andb_true_iff in H as [Hw Hc].
  unfold start, bind at 1, get. rewrite Hw, Hc. cbn [negb]. unfold now_of.
  destruct (contextRef a) as [[st t]|] eqn:Hctx.
  - unfold bind at 1, ret, bind at 1, get. rewrite Hctx. cbn [state currentTime].
    destruct st.
    + unfold bind at 1, resume. rewrite Hctx.
      destruct (start_tail t (called CallResume (set_state Running a)))
        as (a1 & Hrun & Hact & Henv & Hc1 & Hvs).
      exists a1. rewrite Hrun. unfold set_state in *. rewrite Hctx in *.
      world_norm in Hc1. world_norm in Henv. world_norm in Hvs.
      rewrite Hc1. split_and!; by eauto.
    + unfold bind at 1, ret.
      destruct (start_tail t a) as (a1 & Hrun & Hact & Henv & Hc1 & Hvs).
      exists a1. rewrite Hrun, Hc1, Hctx. split_and!; by eauto.
    + unfold bind at 1, ret.
      destruct (start_tail t a) as (a1 & Hrun & Hact & Henv & Hc1 & Hvs).
      exists a1. rewrite Hrun, Hc1, Hctx. split_and!; by eauto.
  - unfold bind at 1, bind at 1, new_AudioContext. unfold modify at 1.
    unfold bind at 1, get.
    world_norm. cbn [state currentTime].
    destruct (initial_state (env a)) eqn:Hi.
    + unfold bind at 1, resume. world_norm. unfold set_state. world_norm.
      cbn [state currentTime].
      match goal with |- context [bind _ _ ?w] =>
        destruct (start_tail 0%Q w) as (a1 & Hrun & Hact & Henv & Hc1 & Hvs) end.
      exists a1. rewrite Hrun, Hc1. world_norm in Henv. world_norm in Hvs.
      split_and!; by eauto.
    + unfold bind at 1, ret.
      match goal with |- context [bind _ _ ?w] =>
        destruct (start_tail 0%Q w) as (a1 & Hrun & Hact & Henv & Hc1 & Hvs) end.
      exists a1. rewrite Hrun, Hc1. world_norm in Henv. world_norm in Hvs.
      split_and!; by eauto.
    + unfold bind at 1, ret.
      match goal with |- context [bind _ _ ?w] =>
        destruct (start_tail 0%Q w) as (a1 & Hrun & Hact & Henv & Hc1 & Hvs) end.
      exists a1. rewrite Hrun, Hc1. world_norm in Henv. world_norm in Hvs.
      split_and!; by eauto.
Qed.

Lemma hook_safe_seq {A B} (c : Eff Audio A) (k : Eff Audio B) :
  hook_safe c -> hook_safe k -> hook_safe (c ;; k).
Proof.
  intros Hc Hk a. unfold bind. specialize (Hc a).
  destruct (c a) as [[x|e] a']; cbn in *; [|done].
  eapply same_hook_trans; [exact Hc | apply Hk].
Qed.

Lemma hook_safe_exponentialRamp n v t : hook_safe (gain_exponentialRamp n v t).
Proof.
  intros a. unfold gain_exponentialRamp.
  destruct (graph a !! n) as [[[] ?]|]; try apply same_hook_refl.
  destruct (Qeq_bool v 0); [apply same_hook_refl | by repeat split].
Qed.

Lemma hook_safe_osc_stop n t : hook_safe (osc_stop n t).
Proof.
  intros a. unfold osc_stop.
  destruct (graph a !! n) as [[[? ? [] [?|]|] ?]|]; try apply same_hook_refl.
  - destruct (restop_throws (env a)); [apply same_hook_refl | by repeat split].
  - by repeat split.
Qed.

Lemma hook_safe_disconnect n : hook_safe (disconnect n).
Proof. intros a. by repeat split. Qed.

Lemma disconnect_returns n a : (disconnect n a).1 = Normal tt.
Proof. reflexivity. Qed.

(** Whatever the [try] block of [stop] throws is swallowed. *)
Lemma try_swallows (c : Eff Audio unit) a :
  hook_safe c ->
  exists a', try_catch c (fun _ => ret tt) a = (Normal tt, a') /\ same_hook a a'.
Proof.
  intros Hc. unfold try_catch. specialize (Hc a).
  destruct (c a) as [[[]|e] a']; cbn in *; eauto.
Qed.

Lemma stop_voice_returns now v a :
  exists a', stop_voice now v a = (Normal tt, a') /\ same_hook a a'.
Proof.
  unfold stop_voice.
  destruct (try_swallows
              (gain_exponentialRamp (gain v) 0.0001 (now + 0.5) ;;
               gain_exponentialRamp (modGain v) 0.0001 (now + 0.5) ;;
               osc_stop (osc v) (now + 0.6) ;;
               osc_stop (modOsc v) (now + 0.6)) a) as (a1 & Htry & H1).
  { repeat apply hook_safe_seq;
      auto using hook_safe_exponentialRamp, hook_safe_osc_stop. }
  unfold bind at 1. rewrite Htry.
  eexists. split; [reflexivity|].
  eapply same_hook_trans; [exact H1|].
  cbn. by repeat split.
Qed.

Lemma stop_voices_return now l :
  forall a, exists a', forEach (stop_voice now) l a = (Normal tt, a') /\ same_hook a a'.
Proof.
  induction l as [|v l IH]; intros a.
  - exists a. split; [reflexivity | apply same_hook_refl].
  - destruct (stop_voice_returns now v a) as (a1 & H1 & Hh1).
    destruct (IH a1) as (a2 & H2 & Hh2).
    exists a2. split; [|by eapply same_hook_trans].
    cbn [forEach]. unfold bind. by rewrite H1.
Qed.

Lemma suspended_idem c : suspended (suspended c) = suspended c.
Proof. by destruct c as [[[] ?]|]. Qed.

Lemma stop_returns a :
  exists a',
    stop a = (Normal tt, a') /\
    isActive a' = false /\ nodesRef a' = [] /\ env a' = env a /\
    contextRef a' = suspended (contextRef a) /\
    (nodesRef a = [] -> graph a' = graph a /\ allocated a' = allocated a /\
                        drawn a' = drawn a).
Proof.
  unfold stop, bind at 1, get.
  destruct (stop_voices_return (now_of a) (nodesRef a) a)
    as (a1 & Hrun & Henv & Hctx & Hnodes & Hact).
  unfold bind at 1. fold (now_of a). rewrite Hrun.
  unfold bind at 1, modify, bind at 1, bind at 1, get. world_norm.
  assert (nodesRef a = [] -> a1 = a) as Hsame.
  { intros Hnil. rewrite Hnil in Hrun. cbn in Hrun. unfold ret in Hrun. congruence. }
  destruct (contextRef a1) as [[st t]|] eqn:Hc1.
  - unfold suspend, setIsActive, modify. world_norm. rewrite Hc1.
    eexists. split; [reflexivity|].
    rewrite <- Hctx.
    destruct st; unfold set_state; world_norm; rewrite ?Hc1; world_norm;
      (split_and!; try done; intros Hnil; rewrite (Hsame Hnil); done).
  - unfold ret, setIsActive, modify. eexists. split; [reflexivity|].
    world_norm. rewrite <- Hctx.
    split_and!; try done. intros Hnil. by rewrite (Hsame Hnil).
Qed.

(** [stop] at mount, before any context exists, changes nothing. *)
Lemma stop_at_mount e : stop (mount e) = (Normal tt, mount e).
Proof. reflexivity. Qed.

(** C6. [stop] never throws, whatever the state of the hook and of the
    audio nodes it holds (what its [try] block throws, such as the
    InvalidStateError of an oscillator that platforms refuse to stop
    twice, is swallowed), and it leaves the drone idle with no voice; a
    second [stop] returns as well and leaves the drone idle with the same
    context and the same graph; before any session, when no context
    exists, [stop] changes nothing at all. *)
Theorem stop_safe_and_idempotent a e :
  (exists a1,
     stop a = (Normal tt, a1) /\ Idle a1 /\
     exists a2,
       stop a1 = (Normal tt, a2) /\ Idle a2 /\
       contextRef a2 = contextRef a1 /\ graph a2 = graph a1) /\
  (forall now v, exists a', stop_voice now v a = (Normal tt, a')) /\
  stop (mount e) = (Normal tt, mount e).
Proof.
  split; [|split].
  - destruct (stop_returns a) as (a1 & H1 & Hact1 & Hn1 & _ & Hc1 & _).
    destruct (stop_returns a1) as (a2 & H2 & Hact2 & Hn2 & _ & Hc2 & Hg2).
    exists a1. split; [done|]. split; [done|].
    exists a2. split; [done|]. split; [done|].
    split.
    + by rewrite Hc2, Hc1, suspended_idem.
    + by apply Hg2.
  - intros now v. destruct (stop_voice_returns now v a) as (a' & H & _). eauto.
  - apply stop_at_mount.
Qed.

Lemma toggle_idle a : isActive a = false -> toggle a = start a.
Proof. intros H. unfold toggle, bind, get. by rewrite H. Qed.

Lemma toggle_sounding a : isActive a = true -> toggle a = stop a.
Proof. intros H. unfold toggle, bind, get. by rewrite H. Qed.

Lemma toggle_step a :
  Idle a \/ Sounding 4 a ->
  exists a', toggle a = (Normal tt, a') /\ (Idle a' \/ Sounding 4 a').
Proof.
  intros [[Hact Hn]|[Hact Hn]].
  - rewrite toggle_idle by done.
    destruct (audio_supported (env a)) eqn:Hs.
    + destruct (start_supported a Hs) as (a1 & H1 & Hact1 & _ & _ & _ & Hlen & _).
      exists a1. split; [done|]. right. by split.
    + rewrite start_unsupported by done. exists a. split; [done|]. by left.
  - rewrite toggle_sounding by done.
    destruct (stop_returns a) as (a1 & H1 & Hact1 & Hn1 & _).
    exists a1. split; [done|]. by left.
Qed.

(** C5, as amended. From the idle state, on a page with an audio
    context constructor, [toggle] makes the drone sound with exactly 4
    voices, one per base frequency, each of them the four nodes [start]
    builds, and a second [toggle] makes it idle again with no voice; on a
    page without such a constructor [toggle] changes nothing; in both
    cases, after any number of [toggle] the drone is idle with no voice or
    sounding with 4. *)
Theorem toggle_alternates a :
  Idle a ->
  (audio_supported (env a) = true ->
   exists a1 a2,
     toggle a = (Normal tt, a1) /\ Sounding 4 a1 /\
     voices_built a1 (now_of a) DRONE_FREQUENCIES 0
       (fun i => rng (env a) (drawn a + i)%nat) (nodesRef a1) /\
     toggle a1 = (Normal tt, a2) /\ Idle a2) /\
  (audio_supported (env a) = false -> toggle a = (Normal tt, a)) /\
  (forall n, exists a', toggles n a = Some a' /\ (Idle a' \/ Sounding 4 a')).
Proof.
  intros [Hact Hn]. split; [|split].
  - intros Hs.
    destruct (start_supported a Hs) as (a1 & H1 & Hact1 & _ & _ & _ & Hvs).
    destruct (stop_returns a1) as (a2 & H2 & Hact2 & Hn2 & _).
    exists a1, a2. rewrite toggle_idle by done. rewrite toggle_sounding by done.
    split_and!; try done. split; [done | apply Hvs].
  - intros Hs. rewrite toggle_idle by done. by apply start_unsupported.
  - intros n. assert (Idle a \/ Sounding 4 a) as Hinv by (by left).
    clear Hact Hn. revert a Hinv. induction n as [|n IH]; intros a Hinv.
    + exists a. by split.
    + destruct (toggle_step a Hinv) as (a' & Ht & Hinv').
      cbn [toggles]. rewrite Ht. by apply IH.
Qed.


(** ** The drone on a concrete page *)

(** The drone button on the sample page: on, off, and three clicks. *)
Lemma toggle_alternates_witness :
  (exists a1 a2,
     toggle (mount audio_page) = (Normal tt, a1) /\ Sounding 4 a1 /\
     toggle a1 = (Normal tt, a2) /\ Idle a2) /\
  (exists a', toggles 3 (mount audio_page) = Some a' /\ (Idle a' \/ Sounding 4 a')).
Proof.
  pose proof (toggle_alternates (mount audio_page) (conj eq_refl eq_refl))
    as (Hon & _ & Hn).
  split.
  - destruct (Hon eq_refl) as (a1 & a2 & H1 & Hs & _ & H2 & Hi). eauto 10.
  - apply Hn.
Defined.


(** C5, as stated, fails. On a page whose browser has no audio context
    constructor, [toggle] from the idle state returns at the guard of
    [start]: the drone stays idle, with no voice. *)
Lemma toggle_without_web_audio_stays_idle :
  Idle (mount silent_page) /\
  toggle (mount silent_page) = (Normal tt, mount silent_page) /\
  ~ Sounding 4 (toggle (mount silent_page)).2.
Proof.
  split; [by split|]. split; [reflexivity|].
  intros [Hact _]. discriminate Hact.
Qed.

(** The session [start] builds on the sample page: node references
    0 to 15, the modulator gains at 14.683, -17.6, 29.366 and -17.6, the
    modulators at 0.2 Hz for the draw 0.5. *)
Example first_session :
  let a1 := (start (mount audio_page)).2 in
  nodesRef a1
  = [ {| osc := 0; gain := 1; modOsc := 2; modGain := 3 |};
      {| osc := 4; gain := 5; modOsc := 6; modGain := 7 |};
      {| osc := 8; gain := 9; modOsc := 10; modGain := 11 |};
      {| osc := 12; gain := 13; modOsc := 14; modGain := 15 |} ] /\
  isActive a1 = true /\
  trace a1
  = [ CallNewContext;
      CallStart 2; CallStart 0; CallLinearRamp 1 0.08 (0 + 2);
      CallStart 6; CallStart 4; CallLinearRamp 5 0.08 (0 + 2);
      CallStart 10; CallStart 8; CallLinearRamp 9 0.08 (0 + 2);
      CallStart 14; CallStart 12; CallLinearRamp 13 0.08 (0 + 2) ]%Q /\
  graph a1 !! 7%nat
  = Some {| kind := GainNode {| value := (220 * - 0.08)%Q; events := [] |};
            outputs := [FrequencyOf 4] |}.
Proof. vm_compute. repeat split. Qed.

(** The exception of the [try] block is swallowed: the oscillator
    refuses the second [stop], and [stop] still returns and leaves the
    drone idle, every voice disconnected. *)
Example stop_swallows_already_stopped :
  (osc_stop 0 (0 + 0.6)%Q session_with_stopped_oscillator).1 = Throw InvalidStateError /\
  (stop session_with_stopped_oscillator).1 = Normal tt /\
  nodesRef (stop session_with_stopped_oscillator).2 = [] /\
  isActive (stop session_with_stopped_oscillator).2 = false /\
  outputs <$> graph (stop session_with_stopped_oscillator).2 !! 0%nat = Some [].
Proof. vm_compute. repeat split. Qed.

(** ** More on the calendar date of the selector *)

Module LocalDateFacts.
Import JsDate JsDateFacts.

Lemma decimal_value_app acc (s r : string) :
  decimal_value acc (s +:+ r) = decimal_value (decimal_value acc s) r.
Proof. revert acc. induction s as [|c s IH]; intros acc; cbn; [done | by rewrite IH]. Qed.

Lemma digit_value n : Z.of_nat (nat_of_ascii (digit n)) - 48 = n mod 10.
Proof.
  unfold digit. rewrite nat_ascii_embedding.
  - pose proof (Z.mod_pos_bound n 10). lia.
  - pose proof (Z.mod_pos_bound n 10). lia.
Qed.

Lemma decimal_value_pad w :
  forall n acc, decimal_value acc (pad w n) = acc * 10 ^ Z.of_nat w + n mod 10 ^ Z.of_nat w.
Proof.
  induction w as [|w IH]; intros n acc.
  - cbn. rewrite Z.mod_1_r. lia.
  - cbn [pad]. rewrite decimal_value_app, IH. cbn [decimal_value].
    rewrite digit_value, Nat2Z.inj_succ, Z.pow_succ_r by lia.
    rewrite (Z.rem_mul_r n 10 (10 ^ Z.of_nat w)) by lia. lia.
Qed.

Lemma pad_inj w a b :
  0 <= a < 10 ^ Z.of_nat w -> 0 <= b < 10 ^ Z.of_nat w -> pad w a = pad w b -> a = b.
Proof.
  intros Ha Hb H. apply (f_equal (decimal_value 0)) in H.
  rewrite !decimal_value_pad in H. rewrite !Z.mod_small in H by done. lia.
Qed.

Lemma append_inj (s1 s2 r1 r2 : string) :
  String.length s1 = String.length s2 -> s1 +:+ r1 = s2 +:+ r2 -> s1 = s2 /\ r1 = r2.
Proof.
  revert s2. induction s1 as [|c s1 IH]; intros [|c' s2] Hlen H; try discriminate.
  - by split.
  - cbn in Hlen, H. injection H as -> H. destruct (IH s2) as [-> ->]; [lia | done | done].
Qed.

(** [YYYY-MM-DD] determines the year, the month and the day. *)
Lemma iso_date_inj y1 m1 d1 y2 m2 d2 :
  0 <= y1 <= 9999 -> 0 <= y2 <= 9999 ->
  0 <= m1 <= 11 -> 0 <= m2 <= 11 -> 1 <= d1 <= 31 -> 1 <= d2 <= 31 ->
  iso_date y1 m1 d1 = iso_date y2 m2 d2 -> (y1, m1, d1) = (y2, m2, d2).
Proof.
  intros Hy1 Hy2 Hm1 Hm2 Hd1 Hd2. unfold iso_date, iso_year.
  destruct (Z.leb_spec0 0 y1), (Z.leb_spec0 y1 9999); try lia.
  destruct (Z.leb_spec0 0 y2), (Z.leb_spec0 y2 9999); try lia. cbn [andb].
  intros H.
  apply append_inj in H as [Hy H]; [|by rewrite !pad_length].
  apply (append_inj "-" "-") in H as [_ H]; [|done].
  apply append_inj in H as [Hm H]; [|by rewrite !pad_length].
  apply (append_inj "-" "-") in H as [_ Hd]; [|done].
  apply pad_inj in Hy; [|cbn; lia..].
  apply pad_inj in Hm; [|cbn; lia..].
  apply pad_inj in Hd; [|cbn; lia..].
  f_equal; [f_equal|]; lia.
Qed.

Lemma civil_of_day_bounds d :
  0 <= (civil_of_day d).1.2 <= 11 /\ 1 <= (civil_of_day d).2 <= 31.
Proof.
  unfold civil_of_day. cbv zeta.
  set (z := d + 719468). set (era := z / 146097). set (doe := z - era * 146097).
  assert (0 <= doe < 146097) as Hdoe by (subst doe era; Z.div_mod_to_equations; lia).
  pose proof (day_of_year_bounds doe Hdoe) as Hy. cbv zeta in Hy.
  set (yoe := (doe - doe / 1460 + doe / 36524 - doe / 146096) / 365) in *.
  set (doy := doe - (365 * yoe + yoe / 4 - yoe / 100)) in *.
  destruct Hy as [Hyoe Hdoy].
  pose proof (month_bounds doy Hdoy) as Hm. cbv zeta in Hm.
  set (mp := (5 * doy + 2) / 153) in *.
  destruct Hm as [Hmp Hdom]. cbn [fst snd].
  split; [|done]. destruct (Z.ltb_spec0 mp 10); lia.
Qed.

Lemma civil_of_day_inj d1 d2 : civil_of_day d1 = civil_of_day d2 -> d1 = d2.
Proof.
  intros H. rewrite <- (MakeDay_civil_of_day d1), <- (MakeDay_civil_of_day d2).
  by rewrite H.
Qed.

(** The date string of a day number, for the years 1970 to 9999. *)
Lemma iso_date_of_day_inj d1 d2 :
  0 <= d1 <= 2932896 -> 0 <= d2 <= 2932896 ->
  iso_date (civil_of_day d1).1.1 (civil_of_day d1).1.2 (civil_of_day d1).2
  = iso_date (civil_of_day d2).1.1 (civil_of_day d2).1.2 (civil_of_day d2).2 ->
  d1 = d2.
Proof.
  intros H1 H2 H.
  pose proof (year_range _ H1). pose proof (year_range _ H2).
  pose proof (civil_of_day_bounds d1) as [? ?].
  pose proof (civil_of_day_bounds d2) as [? ?].
  apply iso_date_inj in H; try lia.
  apply civil_of_day_inj.
  destruct (civil_of_day d1) as [[? ?] ?], (civil_of_day d2) as [[? ?] ?]. exact H.
Qed.

(** [localDate] as the date string of a day number: the local day, or
    the day before it east of UTC. *)
Lemma localDate_of_day tz t :
  -1440 < tz <= 1440 ->
  1 <= Day (LocalTime tz t) <= 2932896 ->
  let d := Day (LocalTime tz t) - (if 0 <? tz then 1 else 0) in
  localDate tz t = iso_date (civil_of_day d).1.1 (civil_of_day d).1.2 (civil_of_day d).2.
Proof.
  intros Htz Hd. cbv zeta. destruct (Z.ltb_spec0 0 tz).
  - rewrite localDate_previous_day_east_of_UTC by lia.
    unfold local_calendar_date, getFullYear, getMonth, getDate, YearFromTime,
      MonthFromTime, DateFromTime.
    replace (Day (LocalTime tz (t - msPerDay))) with (Day (LocalTime tz t) - 1); [done|].
    unfold Day, LocalTime, msPerDay, msPerMinute. Z.div_mod_to_equations. lia.
  - rewrite localDate_west_of_UTC by lia. by rewrite Z.sub_0_r.
Qed.

(** Two time values on different local days have different [localDate]s. *)
Lemma localDate_inj tz t1 t2 :
  -1440 < tz <= 1440 ->
  1 <= Day (LocalTime tz t1) <= 2932896 ->
  1 <= Day (LocalTime tz t2) <= 2932896 ->
  localDate tz t1 = localDate tz t2 -> same_local_day tz t1 t2.
Proof.
  intros Htz H1 H2. rewrite !localDate_of_day by done. cbv zeta. intros H.
  apply iso_date_of_day_inj in H; [unfold same_local_day; lia | |];
    destruct (0 <? tz); lia.
Qed.

End LocalDateFacts.







(** ** More on the daily quote selector *)

Section DailyQuoteMore.

Variable dailyQuotes : list Quote.
Variable JSON_parse : string -> option json.
Variable JSON_stringify : json -> string.

(** X4. The selector touches one storage key only: whatever the world
    and however the call ends, every other key keeps its value. *)
Theorem resolveQuoteId_touches_one_key w k :
  k <> STORAGE_KEY ->
  items (resolveQuoteId dailyQuotes JSON_parse JSON_stringify w).2 !! k = items w !! k.
Proof.
  intros Hk.
  unfold resolveQuoteId, bind, get, read_stored, try_catch, bind, localStorage_getItem,
    Math_random, localStorage_setItem, ret, throw, member.
  repeat case_match; simplify_eq; cbn; try done; by rewrite lookup_insert_ne.
Qed.


Lemma select_index r :
  dailyQuotes <> [] -> (0 <= r)%Q -> (r < 1)%Q ->
  0 <= Qfloor (r * inject_Z (Z.of_nat (length dailyQuotes)))
    < Z.of_nat (length dailyQuotes).
Proof.
  intros Hne H0 H1.
  assert (0 < Z.of_nat (length dailyQuotes)) as Hn by (destruct dailyQuotes; [done | cbn; lia]).
  set (n := Z.of_nat (length dailyQuotes)) in *.
  assert (0 < inject_Z n)%Q as Hq.
  { change (inject_Z 0 < inject_Z n)%Q. by rewrite <- Zlt_Qlt. }
  split.
  - change 0 with (Qfloor 0). apply Qfloor_resp_le. by apply Qmult_le_0_compat; [|apply Qlt_le_weak].
  - rewrite Zlt_Qlt. eapply Qle_lt_trans; [apply Qfloor_le|].
    apply (Qlt_le_trans _ (1 * inject_Z n)); [by apply Qmult_lt_compat_r|].
    rewrite Qmult_1_l. apply Qle_refl.
Qed.

Lemma select_picks_floor_index_aux r :
  dailyQuotes <> [] -> (0 <= r)%Q -> (r < 1)%Q ->
  exists q,
    dailyQuotes !! Z.to_nat (Qfloor (r * inject_Z (Z.of_nat (length dailyQuotes)))) = Some q /\
    select dailyQuotes r = Some q.
Proof.
  intros Hne H0 H1. destruct (select_index r Hne H0 H1) as [Hlo Hhi].
  unfold select, index.
  destruct (Z.ltb_spec0 (Qfloor (r * inject_Z (Z.of_nat (length dailyQuotes)))) 0); [lia|].
  destruct (lookup_lt_is_Some_2 dailyQuotes
              (Z.to_nat (Qfloor (r * inject_Z (Z.of_nat (length dailyQuotes)))))) as [q Hq];
    [lia|].
  exists q. by rewrite Hq.
Qed.



(** X7. With an empty table the selector never throws and never
    writes, whatever the storage does; with nothing stored it returns the
    empty string. *)
Theorem resolveQuoteId_empty_table w :
  exists v w',
    resolveQuoteId [] JSON_parse JSON_stringify w = (Normal v, w') /\
    items w' = items w /\
    (items w !! STORAGE_KEY = None -> v = Val (JStr "")).
Proof.
  unfold resolveQuoteId, bind, get, read_stored, try_catch, bind, localStorage_getItem,
    Math_random, ret, throw, member, select, index.
  repeat case_match; simplify_eq; cbn in *; eexists _, _; (split; [reflexivity|]);
    (split; [reflexivity|]); intros Hnone; try done; simplify_eq.
Qed.

Section CodecMore.

Hypothesis parse_stringify :
  forall d q, JSON_parse (JSON_stringify (record_of d q)) = Some (record_of d q).
Hypothesis stringify_truthy :
  forall d q, truthy_string (JSON_stringify (record_of d q)) = true.

Lemma stored_after_selection w q :
  stored_of JSON_parse (items (after_selection JSON_stringify w q) !! STORAGE_KEY)
  = record_of (localDate (tz w) (now w)) (id q).
Proof.
  unfold after_selection. cbn. rewrite lookup_insert_eq. cbn.
  by rewrite stringify_truthy, parse_stringify.
Qed.

(** X8. With a window, a working storage and a non-empty table, the
    selector returns normally and leaves under its key a record dated
    today whose [quoteId] is the value it returned. *)
Theorem resolveQuoteId_leaves_todays_record w :
  has_window w = true -> storage_available w = true -> storage_writable w = true ->
  dailyQuotes <> [] ->
  exists v w',
    resolveQuoteId dailyQuotes JSON_parse JSON_stringify w = (Normal v, w') /\
    strict_eq_string (opt_member (stored_of JSON_parse (items w' !! STORAGE_KEY)) "date")
      (localDate (tz w) (now w)) = true /\
    opt_member (stored_of JSON_parse (items w' !! STORAGE_KEY)) "quoteId" = v.
Proof.
  intros Hw Hav Hwr Hne.
  destruct (strict_eq_string
              (opt_member (stored_of JSON_parse (items w !! STORAGE_KEY)) "date")
              (localDate (tz w) (now w))) eqn:Hd.
  - eexists _, _. split; [by apply resolve_reuse|]. cbn. by split.
  - destruct (select_nonempty dailyQuotes (rand w (rand_pos w)) Hne) as (q & Hq & _).
    eexists _, _. split; [by apply resolve_select|].
    rewrite stored_after_selection. cbn. by rewrite String.eqb_refl.
Qed.



End CodecMore.

End DailyQuoteMore.

(** The extras on the sample table, with the reference codec. *)

(** Another key of the storage, in the browser of the scenario. *)
Lemma resolveQuoteId_touches_one_key_witness :
  items (resolveQuoteId two_quotes JsonRef.parse JsonRef.stringify (browser 0)).2 !! "theme"
  = items (browser 0) !! "theme".
Proof.
  apply (resolveQuoteId_touches_one_key two_quotes JsonRef.parse JsonRef.stringify
           (browser 0) "theme").
  discriminate.
Defined.



Lemma resolveQuoteId_leaves_todays_record_witness :
  exists v w',
    resolveQuoteId two_quotes JsonRef.parse JsonRef.stringify (browser 0) = (Normal v, w') /\
    strict_eq_string (opt_member (stored_of JsonRef.parse (items w' !! STORAGE_KEY)) "date")
      (localDate 0 1710068400000) = true /\
    opt_member (stored_of JsonRef.parse (items w' !! STORAGE_KEY)) "quoteId" = v.
Proof.
  apply (resolveQuoteId_leaves_todays_record two_quotes JsonRef.parse JsonRef.stringify
           JsonRefFacts.parse_stringify_record JsonRefFacts.stringify_record_truthy
           (browser 0)); first [reflexivity | discriminate].
Defined.



(** ** More on the drone *)

Lemma new_contexts_app t t' : new_contexts (t ++ t') = (new_contexts t + new_contexts t')%nat.
Proof. unfold new_contexts. by rewrite List.filter_app, length_app. Qed.

(** The voices loop, with the references it hands out. *)
Lemma start_voices_layout now freqs :
  forall index acc a,
  exists a',
    start_voices now freqs index acc a
    = (Normal (acc ++ voices_from (allocated a) (length freqs)), a') /\
    allocated a' = (allocated a + 4 * length freqs)%nat /\
    new_contexts (trace a') = new_contexts (trace a).
Proof.
  induction freqs as [|freq rest IH]; intros index acc a.
  - exists a. cbn. rewrite app_nil_r. split_and!; [done | lia | done].
  - destruct (start_voice_spec now freq index a)
      as (a1 & Hrun & _ & Halloc & _ & Htrace & _).
    destruct (IH (S index) (acc ++ [voice_at (allocated a)]) a1) as (a' & Hrun' & Halloc' & Hnew).
    exists a'. split_and!.
    + cbn [start_voices]. unfold bind. rewrite Hrun. fold (voice_at (allocated a)).
      rewrite Hrun', Halloc. cbn [voices_from length]. by rewrite <- app_assoc.
    + cbn [length]. lia.
    + rewrite Hnew, Htrace, new_contexts_app. cbn. lia.
Qed.

Lemma start_tail_layout now w :
  exists a1,
    (do oscillators <- start_voices now DRONE_FREQUENCIES 0 [];
     modify (set_nodesRef oscillators) ;; setIsActive true) w = (Normal tt, a1) /\
    isActive a1 = true /\ env a1 = env w /\ contextRef a1 = contextRef w /\
    nodesRef a1 = voices_from (allocated w) 4 /\
    allocated a1 = (allocated w + 16)%nat /\
    drawn a1 = (drawn w + 4)%nat /\
    new_contexts (trace a1) = new_contexts (trace w) /\
    (forall j, (j < allocated w)%nat -> graph a1 !! j = graph w !! j) /\
    voices_built a1 now DRONE_FREQUENCIES 0
      (fun i => rng (env w) (drawn w + i)%nat) (nodesRef a1).
Proof.
  destruct (start_voices_spec now DRONE_FREQUENCIES 0%nat [] w)
    as (a' & vs & Hrun & (Henv & Hctx & _ & _) & _ & Hdrawn & _ & Hframe & Hlen & Hvs).
  destruct (start_voices_layout now DRONE_FREQUENCIES 0%nat [] w)
    as (a'' & Hrun' & Halloc & Hnew).
  rewrite Hrun in Hrun'. injection Hrun' as Hvs' <-. cbn [app] in Hvs'. subst vs.
  eexists. split.
  { unfold bind at 1. rewrite Hrun. reflexivity. }
  world_norm. split_and!; try done.
Qed.

(** [start] on a page with an audio context constructor, in full. *)
Lemma start_layout a :
  audio_supported (env a) = true ->
  exists a1,
    start a = (Normal tt, a1) /\
    isActive a1 = true /\ env a1 = env a /\
    contextRef a1 = Some (context_of_start a) /\
    nodesRef a1 = voices_from (allocated a) 4 /\
    allocated a1 = (allocated a + 16)%nat /\
    drawn a1 = (drawn a + 4)%nat /\
    new_contexts (trace a1)
    = (new_contexts (trace a) + (match contextRef a with Some _ => 0 | None => 1 end))%nat /\
    (forall j, (j < allocated a)%nat -> graph a1 !! j = graph a !! j) /\
    voices_built a1 (currentTime (context_of_start a)) DRONE_FREQUENCIES 0
      (fun i => rng (env a) (drawn a + i)%nat) (nodesRef a1).
Proof.
  unfold audio_supported. intros H. apply andb_true_iff in H as [Hw Hc].
  unfold start, bind at 1, get. rewrite Hw, Hc. cbn [negb]. unfold context_of_start, resumed.
  destruct (contextRef a) as [[st t]|] eqn:Hctx.
  - unfold bind at 1, ret, bind at 1, get. rewrite Hctx. cbn [state currentTime].
    destruct st.
    + unfold bind at 1, resume. rewrite Hctx.
      destruct (start_tail_layout t (called CallResume (set_state Running a)))
        as (a1 & Hrun & Hact & Henv & Hc1 & Hn & Hal & Hdr & Hnew & Hfr & Hvs).
      exists a1. rewrite Hrun. unfold set_state in *. rewrite Hctx in *.
      world_norm in Hc1. world_norm in Henv. world_norm in Hvs. world_norm in Hn.
      world_norm in Hal. world_norm in Hdr. world_norm in Hnew. world_norm in Hfr.
      rewrite new_contexts_app in Hnew. cbn in Hnew.
      split_and!; first [done | lia].
    + unfold bind at 1, ret.
      destruct (start_tail_layout t a)
        as (a1 & Hrun & Hact & Henv & Hc1 & Hn & Hal & Hdr & Hnew & Hfr & Hvs).
      exists a1. rewrite Hrun, Hc1, Hctx. split_and!; first [done | lia].
    + unfold bind at 1, ret.
      destruct (start_tail_layout t a)
        as (a1 & Hrun & Hact & Henv & Hc1 & Hn & Hal & Hdr & Hnew & Hfr & Hvs).
      exists a1. rewrite Hrun, Hc1, Hctx. split_and!; first [done | lia].
  - unfold bind at 1, bind at 1, new_AudioContext. unfold modify at 1.
    unfold bind at 1, get.
    world_norm. cbn [state currentTime].
    destruct (initial_state (env a)) eqn:Hi.
    + unfold bind at 1, resume. world_norm. unfold set_state. world_norm.
      cbn [state currentTime].
      match goal with |- context [bind _ _ ?w] =>
        destruct (start_tail_layout 0%Q w)
          as (a1 & Hrun & Hact & Henv & Hc1 & Hn & Hal & Hdr & Hnew & Hfr & Hvs) end.
      exists a1. rewrite Hrun, Hc1. world_norm in Henv. world_norm in Hvs. world_norm in Hn.
      world_norm in Hal. world_norm in Hdr. world_norm in Hnew. world_norm in Hfr.
      rewrite !new_contexts_app in Hnew. cbn in Hnew.
      split_and!; first [done | lia].
    + unfold bind at 1, ret.
      match goal with |- context [bind _ _ ?w] =>
        destruct (start_tail_layout 0%Q w)
          as (a1 & Hrun & Hact & Henv & Hc1 & Hn & Hal & Hdr & Hnew & Hfr & Hvs) end.
      exists a1. rewrite Hrun, Hc1. world_norm in Henv. world_norm in Hvs. world_norm in Hn.
      world_norm in Hal. world_norm in Hdr. world_norm in Hnew. world_norm in Hfr.
      rewrite !new_contexts_app in Hnew. cbn in Hnew.
      split_and!; first [done | lia].
    + unfold bind at 1, ret.
      match goal with |- context [bind _ _ ?w] =>
        destruct (start_tail_layout 0%Q w)
          as (a1 & Hrun & Hact & Henv & Hc1 & Hn & Hal & Hdr & Hnew & Hfr & Hvs) end.
      exists a1. rewrite Hrun, Hc1. world_norm in Henv. world_norm in Hvs. world_norm in Hn.
      world_norm in Hal. world_norm in Hdr. world_norm in Hnew. world_norm in Hfr.
      rewrite !new_contexts_app in Hnew. cbn in Hnew.
      split_and!; first [done | lia].
Qed.

Lemma sounding_oscillator_inv g n :
  sounding_oscillator g n = true ->
  exists t f o, g !! n = Some {| kind := OscillatorNode t f true None; outputs := o |}.
Proof.
  unfold sounding_oscillator. destruct (g !! n) as [[k o]|]; [|done].
  destruct k as [t f s e|p]; [|done]. destruct s, e; try done. eauto.
Qed.

Lemma is_gain_inv g n :
  is_gain g n = true ->
  exists p o, g !! n = Some {| kind := GainNode p; outputs := o |}.
Proof.
  unfold is_gain. destruct (g !! n) as [[k o]|]; [|done].
  destruct k as [t f s e|p]; [done|]. eauto.
Qed.

Lemma last_snoc {A} (l : list A) x : last (l ++ [x]) = Some x.
Proof. induction l as [|y [|z l] IH]; try done. Qed.

(** One run of the callback of [stop] on a live voice. *)
Lemma stop_voice_spec now v a :
  NoDup (voice_ids v) ->
  live_voice (graph a) v = true ->
  exists a',
    stop_voice now v a = (Normal tt, a') /\
    same_hook a a' /\
    voice_faded (graph a') v now /\
    (forall j, j ∉ voice_ids v -> graph a' !! j = graph a !! j).
Proof.
  destruct v as [o g m mg]. unfold voice_ids, live_voice. cbn [osc gain modOsc modGain].
  intros Hnd Hlive.
  apply NoDup_cons in Hnd as [H1 Hnd]. apply NoDup_cons in Hnd as [H2 Hnd].
  apply NoDup_cons in Hnd as [H3 _].
  apply not_elem_of_cons in H1 as [Hog H1]. apply not_elem_of_cons in H1 as [Hom H1].
  apply not_elem_of_cons in H1 as [Homg _].
  apply not_elem_of_cons in H2 as [Hgm H2]. apply not_elem_of_cons in H2 as [Hgmg _].
  apply not_elem_of_cons in H3 as [Hmmg _].
  rewrite !andb_true_iff in Hlive. destruct Hlive as [[[Ho Hg] Hm] Hmg].
  apply sounding_oscillator_inv in Ho as (t1 & f1 & o1 & Ho).
  apply sounding_oscillator_inv in Hm as (t3 & f3 & o3 & Hm).
  apply is_gain_inv in Hg as (p2 & o2 & Hg).
  apply is_gain_inv in Hmg as (p4 & o4 & Hmg).
  unfold stop_voice, try_catch, bind. cbn [osc gain modOsc modGain].
  unfold gain_exponentialRamp at 1. rewrite Hg. change (Qeq_bool 0.0001 0) with false. cbv iota.
  unfold gain_exponentialRamp at 1. world_norm. map_lookup. rewrite Hmg.
  change (Qeq_bool 0.0001 0) with false. cbv iota.
  unfold osc_stop at 1. world_norm. map_lookup. rewrite Ho.
  unfold osc_stop at 1. world_norm. map_lookup. rewrite Hm.
  unfold disconnect, ret. world_norm.
  eexists. split; [reflexivity|]. world_norm.
  split; [by repeat split|]. split.
  - unfold voice_faded, gain_events, stop_time. cbn [osc gain modOsc modGain].
    map_lookup. cbn. rewrite !last_snoc. split_and!; try done.
    intros n Hn. unfold voice_ids in Hn. cbn [osc gain modOsc modGain] in Hn.
    apply elem_of_cons in Hn as [->|Hn]; [map_lookup; reflexivity|].
    apply elem_of_cons in Hn as [->|Hn]; [map_lookup; reflexivity|].
    apply elem_of_cons in Hn as [->|Hn]; [map_lookup; reflexivity|].
    apply elem_of_cons in Hn as [->|Hn]; [map_lookup; reflexivity|].
    by apply elem_of_nil in Hn.
  - intros j Hj. apply not_elem_of_cons in Hj as [? Hj].
    apply not_elem_of_cons in Hj as [? Hj]. apply not_elem_of_cons in Hj as [? Hj].
    apply not_elem_of_cons in Hj as [? _].
    map_lookup. reflexivity.
Qed.

Lemma live_voice_frame g g' v :
  (forall n, n ∈ voice_ids v -> g' !! n = g !! n) -> live_voice g' v = live_voice g v.
Proof.
  intros H. unfold live_voice, sounding_oscillator, is_gain.
  rewrite !H; [done | | | |]; unfold voice_ids; set_solver.
Qed.

Lemma voice_faded_frame g g' v now :
  (forall n, n ∈ voice_ids v -> g' !! n = g !! n) -> voice_faded g v now -> voice_faded g' v now.
Proof.
  intros H (H1 & H2 & H3 & H4 & H5). unfold voice_faded, gain_events, stop_time in *.
  rewrite !H by (unfold voice_ids; set_solver).
  split_and!; try done. intros n Hn. rewrite H by done. by apply H5.
Qed.

Lemma elem_of_session_ids n v l :
  n ∈ voice_ids v -> v ∈ l -> n ∈ concat (voice_ids <$> l).
Proof.
  intros Hn Hv. induction l as [|v' l IH]; [by apply elem_of_nil in Hv|].
  cbn [fmap list_fmap concat]. apply elem_of_app.
  apply elem_of_cons in Hv as [->|Hv]; [by left | right; by apply IH].
Qed.

(** The loop of [stop] over a live session. *)
Lemma stop_voices_spec now l :
  forall a,
  NoDup (concat (voice_ids <$> l)) ->
  forallb (live_voice (graph a)) l = true ->
  exists a',
    forEach (stop_voice now) l a = (Normal tt, a') /\
    same_hook a a' /\
    (forall v, v ∈ l -> voice_faded (graph a') v now) /\
    (forall j, j ∉ concat (voice_ids <$> l) -> graph a' !! j = graph a !! j).
Proof.
  induction l as [|v l IH]; intros a Hnd Hlive.
  - exists a. split_and!; [done | apply same_hook_refl | | done].
    intros v Hv. by apply elem_of_nil in Hv.
  - cbn [fmap list_fmap concat] in Hnd. apply NoDup_app in Hnd as (Hv & Hdisj & Hl).
    cbn [forallb] in Hlive. apply andb_true_iff in Hlive as [Hlv Hll].
    destruct (stop_voice_spec now v a Hv Hlv) as (a1 & H1 & Hh1 & Hf1 & Hfr1).
    destruct (IH a1 Hl) as (a2 & H2 & Hh2 & Hf2 & Hfr2).
    { apply forallb_forall. intros v' Hv'.
      rewrite (live_voice_frame (graph a)).
      - eapply forallb_forall in Hll; [exact Hll | exact Hv'].
      - intros n Hn. apply Hfr1. intros Hnv. apply (Hdisj n Hnv).
        eapply elem_of_session_ids; [exact Hn | by apply list_elem_of_In]. }
    exists a2. split_and!.
    + cbn [forEach]. unfold bind. by rewrite H1.
    + by eapply same_hook_trans.
    + intros v' Hv'. apply elem_of_cons in Hv' as [->|Hv']; [|by apply Hf2].
      eapply voice_faded_frame; [|exact Hf1]. intros n Hn. apply Hfr2.
      intros Hnl. by apply (Hdisj n).
    + intros j Hj. cbn [fmap list_fmap concat] in Hj. apply not_elem_of_app in Hj as [Hj1 Hj2].
      rewrite Hfr2 by done. by apply Hfr1.
Qed.

Lemma context_free_seq {A B} (c : Eff Audio A) (k : Eff Audio B) :
  context_free c -> context_free k -> context_free (c ;; k).
Proof.
  intros Hc Hk a. unfold bind. specialize (Hc a). unfold no_new_context in *.
  destruct (c a) as [[x|e] a']; cbn in *; [|done].
  rewrite <- Hc. apply Hk.
Qed.

Lemma context_free_try (c : Eff Audio unit) :
  context_free c -> context_free (try_catch c (fun _ => ret tt)).
Proof.
  intros Hc a. unfold try_catch. specialize (Hc a).
  destruct (c a) as [[[]|e] a']; cbn in *; done.
Qed.

Lemma context_free_exponentialRamp n v t : context_free (gain_exponentialRamp n v t).
Proof.
  intros a. unfold gain_exponentialRamp, no_new_context.
  repeat case_match; cbn [snd called set_graph trace]; rewrite ?new_contexts_app;
    cbn [new_contexts List.filter is_new_context length]; lia.
Qed.

Lemma context_free_osc_stop n t : context_free (osc_stop n t).
Proof.
  intros a. unfold osc_stop, no_new_context.
  repeat case_match; cbn [snd called set_graph trace]; rewrite ?new_contexts_app;
    cbn [new_contexts List.filter is_new_context length]; lia.
Qed.

Lemma context_free_disconnect n : context_free (disconnect n).
Proof.
  intros a. unfold no_new_context, disconnect. cbn [snd called set_graph trace].
  rewrite new_contexts_app. cbn [new_contexts List.filter is_new_context length]. lia.
Qed.

Lemma context_free_stop_voice now v : context_free (stop_voice now v).
Proof.
  unfold stop_voice.
  repeat first [ apply context_free_seq | apply context_free_try ];
    auto using context_free_exponentialRamp, context_free_osc_stop, context_free_disconnect.
Qed.

Lemma context_free_stop_voices now l : context_free (forEach (stop_voice now) l).
Proof.
  induction l as [|v l IH]; [by intros a|].
  cbn [forEach]. apply context_free_seq; [apply context_free_stop_voice | exact IH].
Qed.

Lemma stop_creates_no_context a : no_new_context a (stop a).2.
Proof.
  unfold stop, bind at 1, get. fold (now_of a).
  pose proof (context_free_stop_voices (now_of a) (nodesRef a) a) as Hq.
  destruct (stop_voices_return (now_of a) (nodesRef a) a) as (a1 & Hrun & _).
  unfold bind at 1. rewrite Hrun in *. cbn [snd] in Hq.
  unfold bind at 1, modify, bind at 1, bind at 1, get. world_norm.
  unfold no_new_context in *.
  destruct (contextRef a1) as [[st t]|] eqn:Hc1.
  - unfold suspend, setIsActive, modify. world_norm. rewrite Hc1.
    destruct st; unfold set_state; world_norm; rewrite ?Hc1; cbn [snd]; world_norm;
      rewrite new_contexts_app; cbn [new_contexts List.filter is_new_context length]; lia.
  - unfold ret, setIsActive, modify. cbn [snd]. world_norm. done.
Qed.


Lemma voice_built_live g v freq r i now : voice_built g v freq r i now -> live_voice g v = true.
Proof.
  intros (H1 & H2 & H3 & H4). unfold live_voice, sounding_oscillator, is_gain.
  by rewrite H1, H2, H3, H4.
Qed.

Lemma voices_from_ids k : concat (voice_ids <$> voices_from k 4) = seq k 16.
Proof. reflexivity. Qed.

(** X12. On a page with an audio context constructor, [start] records
    four voices made of 16 nodes created in a row, all new and distinct;
    the session is live, one random value is drawn per voice, and no node
    that existed before is changed. *)
Theorem start_allocates_fresh_nodes a :
  audio_supported (env a) = true ->
  exists a1,
    start a = (Normal tt, a1) /\
    nodesRef a1 = voices_from (allocated a) 4 /\
    live_session a1 /\
    allocated a1 = (allocated a + 16)%nat /\
    drawn a1 = (drawn a + 4)%nat /\
    (forall j, (j < allocated a)%nat -> graph a1 !! j = graph a !! j).
Proof.
  intros Hs.
  destruct (start_layout a Hs)
    as (a1 & Hrun & _ & _ & _ & Hn & Hal & Hdr & _ & Hfr & _ & Hvs).
  exists a1. split_and!; try done.
  split.
  - rewrite Hn, voices_from_ids. apply NoDup_seq.
  - apply forallb_forall. intros v Hv.
    apply list_elem_of_In, list_elem_of_lookup in Hv as [i Hi].
    destruct (Hvs i v Hi) as (freq & _ & Hb & _). by eapply voice_built_live.
Qed.

Lemma toggle_keeps_one_context a :
  new_contexts (trace a) = match contextRef a with Some _ => 1 | None => 0 end%nat ->
  exists a',
    toggle a = (Normal tt, a') /\
    new_contexts (trace a') = match contextRef a' with Some _ => 1 | None => 0 end%nat.
Proof.
  intros Hinv. destruct (isActive a) eqn:Hact.
  - rewrite toggle_sounding by done.
    destruct (stop_returns a) as (a' & Hrun & _ & _ & _ & Hctx & _).
    pose proof (stop_creates_no_context a) as Hq. rewrite Hrun in Hq. cbn [snd] in Hq.
    exists a'. split; [done|]. rewrite Hq, Hinv, Hctx.
    by destruct (contextRef a) as [[[] ?]|].
  - rewrite toggle_idle by done.
    destruct (audio_supported (env a)) eqn:Hs.
    + destruct (start_layout a Hs) as (a1 & Hrun & _ & _ & Hctx & _ & _ & _ & Hnew & _).
      exists a1. split; [done|]. rewrite Hnew, Hctx, Hinv.
      by destruct (contextRef a).
    + rewrite start_unsupported by done. eauto.
Qed.

(** X13. The audio context is created at most once: from mount, after
    any number of clicks on the drone button, exactly one context was
    created if the hook holds one, and none otherwise. *)
Theorem context_created_once e n :
  exists a,
    toggles n (mount e) = Some a /\
    new_contexts (trace a) = match contextRef a with Some _ => 1 | None => 0 end%nat.
Proof.
  assert (forall a,
    new_contexts (trace a) = match contextRef a with Some _ => 1 | None => 0 end%nat ->
    exists a', toggles n a = Some a' /\
      new_contexts (trace a') = match contextRef a' with Some _ => 1 | None => 0 end%nat)
    as H.
  { induction n as [|n IH]; intros a Hinv; [by exists a|].
    destruct (toggle_keeps_one_context a Hinv) as (a1 & Hrun & Hinv1).
    cbn [toggles]. rewrite Hrun. by apply IH. }
  by apply H.
Qed.

(** X14. The cleanup at unmount never throws: it leaves the drone idle
    and the context, when there is one, closed; on a hook that never
    started it changes nothing and creates no context. *)
Theorem unmount_closes_context a e :
  (exists a',
     unmount a = (Normal tt, a') /\ Idle a' /\
     contextRef a' = closed (contextRef a) /\
     no_new_context a a') /\
  unmount (mount e) = (Normal tt, mount e).
Proof.
  split; [|reflexivity].
  destruct (stop_returns a) as (a1 & Hrun & Hact & Hn & _ & Hctx & _).
  pose proof (stop_creates_no_context a) as Hq. rewrite Hrun in Hq. cbn [snd] in Hq.
  unfold unmount, bind at 1. rewrite Hrun. unfold bind, get.
  destruct (contextRef a1) as [c1|] eqn:Hc1.
  - unfold close. eexists. split; [reflexivity|].
    unfold Idle, set_state, no_new_context in *. rewrite Hc1. world_norm.
    split; [done|]. split.
    + destruct (contextRef a) as [[[] ?]|]; cbn in *; by simplify_eq.
    + rewrite new_contexts_app. cbn [new_contexts List.filter is_new_context length]. lia.
  - unfold ret. exists a1. split; [done|]. split; [done|]. split; [|done].
    by destruct (contextRef a) as [[[] ?]|].
Qed.

Lemma toggle_keeps_running_iff_sounding a :
  audio_supported (env a) = true -> initial_state (env a) <> Closed ->
  running_iff_sounding a ->
  exists a',
    toggle a = (Normal tt, a') /\ env a' = env a /\ running_iff_sounding a'.
Proof.
  intros Hs Hi [[[Hact Hn] Hctx]|[[Hact Hn] Hctx]].
  - rewrite toggle_idle by done.
    destruct (start_layout a Hs) as (a1 & Hrun & Hact1 & Henv & Hc1 & Hn1 & _).
    exists a1. split; [done|]. split; [done|]. right. split.
    + split; [done|]. by rewrite Hn1.
    + rewrite Hc1. unfold context_of_start, resumed.
      destruct Hctx as [->|Hctx].
      * cbn. by destruct (initial_state (env a)).
      * destruct (contextRef a) as [[[] ?]|]; by simplify_eq.
  - rewrite toggle_sounding by done.
    destruct (stop_returns a) as (a1 & Hrun & Hact1 & Hn1 & Henv & Hc1 & _).
    exists a1. split; [done|]. split; [done|]. left. split; [done|].
    right. rewrite Hc1. destruct (contextRef a) as [[[] ?]|]; by simplify_eq.
Qed.


(** The session [start] builds on the sample page is live. *)
Lemma first_session_live : live_session (start (mount audio_page)).2.
Proof. split; [apply (bool_decide_unpack _) |]; vm_compute; first [exact I | reflexivity]. Qed.


(** The first [start] on the sample page. *)
Lemma start_allocates_fresh_nodes_witness :
  exists a1,
    start (mount audio_page) = (Normal tt, a1) /\
    nodesRef a1 = voices_from (allocated (mount audio_page)) 4 /\
    live_session a1 /\
    allocated a1 = (allocated (mount audio_page) + 16)%nat /\
    drawn a1 = (drawn (mount audio_page) + 4)%nat /\
    (forall j, (j < allocated (mount audio_page))%nat ->
       graph a1 !! j = graph (mount audio_page) !! j).
Proof. apply (start_allocates_fresh_nodes (mount audio_page)). reflexivity. Defined.


(** ** The voice of the narration *)

Lemma first_hinted_sound hints vs v :
  first_hinted hints vs = Some v ->
  v ∈ vs /\ exists hint, hint ∈ hints /\ lang_matches hint v = true.
Proof.
  induction hints as [|h rest IH]; [done|]. cbn [first_hinted].
  destruct (List.find (lang_matches h) vs) as [v'|] eqn:Hf.
  - intros [= ->]. apply List.find_some in Hf as [Hin Hm].
    split; [by apply list_elem_of_In|]. exists h. split; [left | done].
  - intros H. destruct (IH H) as (Hin & hint & Hh & Hm).
    split; [done|]. exists hint. split; [by right | done].
Qed.

Lemma first_hinted_none hints vs :
  first_hinted hints vs = None <->
  forall hint v, hint ∈ hints -> v ∈ vs -> lang_matches hint v = false.
Proof.
  induction hints as [|h rest IH]; cbn [first_hinted].
  - split; [|done]. intros _ hint v Hh. by apply elem_of_nil in Hh.
  - destruct (List.find (lang_matches h) vs) as [v'|] eqn:Hf.
    + split; [done|]. intros H. apply List.find_some in Hf as [Hin Hm].
      rewrite (H h v') in Hm; [done | left | by apply list_elem_of_In].
    + rewrite IH. split.
      * intros H hint v Hh Hv. apply elem_of_cons in Hh as [->|Hh]; [|by apply H].
        eapply List.find_none in Hf; [exact Hf | by apply list_elem_of_In].
      * intros H hint v Hh Hv. apply H; [by right | done].
Qed.

Lemma find_first {A} (f : A -> bool) before x after :
  (forall y, y ∈ before -> f y = false) -> f x = true ->
  List.find f (before ++ x :: after) = Some x.
Proof.
  intros Hb Hx. induction before as [|y before IH]; cbn.
  - by rewrite Hx.
  - rewrite (Hb y) by left. apply IH. intros z Hz. apply Hb. by right.
Qed.

Lemma first_hinted_skip pre hints vs :
  (forall hint v, hint ∈ pre -> v ∈ vs -> lang_matches hint v = false) ->
  first_hinted (pre ++ hints) vs = first_hinted hints vs.
Proof.
  intros H. induction pre as [|h pre IH]; [done|]. cbn [app first_hinted].
  destruct (List.find (lang_matches h) vs) as [v'|] eqn:Hf.
  - apply List.find_some in Hf as [Hin Hm].
    rewrite (H h v') in Hm; [done | left | by apply list_elem_of_In].
  - apply IH. intros hint v Hh Hv. apply H; [by right | done].
Qed.

Lemma pickVoice_matching_aux vs l v :
  pickVoice vs l = Some v ->
  v ∈ vs /\
  exists hint, (hint ∈ voiceHints l \/ hint = "en"%string) /\ lang_matches hint v = true.
Proof.
  unfold pickVoice. destruct (first_hinted (voiceHints l) vs) as [v'|] eqn:Hh.
  - intros [= ->]. destruct (first_hinted_sound _ _ _ Hh) as (Hin & hint & Hhint & Hm).
    split; [done|]. exists hint. split; [by left | done].
  - intros Hf. apply List.find_some in Hf as [Hin Hm].
    split; [by apply list_elem_of_In|]. exists "en"%string. split; [by right | done].
Qed.

(** X16. [pickVoice] never invents a voice: the voice it returns is one
    of the list, and its language tag starts, case set aside, with one of
    the hints of the language or with [en]. *)
Theorem pickVoice_returns_matching_voice vs l v :
  pickVoice vs l = Some v ->
  v ∈ vs /\
  exists hint, (hint ∈ voiceHints l \/ hint = "en"%string) /\ lang_matches hint v = true.
Proof. apply pickVoice_matching_aux. Qed.

(** X17. The order of the hints wins over the order of the voices: when
    no voice matches an earlier hint, the first voice of the list that
    matches the hint is returned, whatever comes after it. *)
Theorem pickVoice_prefers_earlier_hint vs l pre hint post earlier v later :
  voiceHints l = pre ++ hint :: post ->
  (forall h v', h ∈ pre -> v' ∈ vs -> lang_matches h v' = false) ->
  vs = earlier ++ v :: later ->
  (forall v', v' ∈ earlier -> lang_matches hint v' = false) ->
  lang_matches hint v = true ->
  pickVoice vs l = Some v.
Proof.
  intros Hhints Hpre Hvs Hbefore Hv. unfold pickVoice.
  rewrite Hhints, first_hinted_skip by done. cbn [first_hinted].
  rewrite Hvs at 1. by rewrite find_first.
Qed.

(** X18. [pickVoice] returns nothing exactly when no voice of the list
    has a tag that starts with a hint of the language or with [en]: an
    English voice is enough for every language. *)
Theorem pickVoice_none_iff vs l :
  pickVoice vs l = None <->
  forall v, v ∈ vs ->
    lang_matches "en" v = false /\
    forall hint, hint ∈ voiceHints l -> lang_matches hint v = false.
Proof.
  unfold pickVoice. split.
  - destruct (first_hinted (voiceHints l) vs) as [v'|] eqn:Hh; [done|].
    intros Hf v Hv. split.
    + eapply List.find_none in Hf; [exact Hf | by apply list_elem_of_In].
    + intros hint Hhint. by eapply first_hinted_none.
  - intros H.
    assert (first_hinted (voiceHints l) vs = None) as ->.
    { apply first_hinted_none. intros hint v Hh Hv. by apply (H v Hv). }
    destruct (List.find (lang_matches "en") vs) as [v|] eqn:Hf; [|done].
    apply List.find_some in Hf as [Hin Hm].
    destruct (H v) as [Hen _]; [by apply list_elem_of_In|]. congruence.
Qed.

Lemma lower_char_idem c : lower_char (lower_char c) = lower_char c.
Proof. destruct c as [[] [] [] [] [] [] [] []]; reflexivity. Qed.

Lemma toLowerCase_idem s : toLowerCase (toLowerCase s) = toLowerCase s.
Proof. induction s as [|c s IH]; cbn; [done | by rewrite lower_char_idem, IH]. Qed.

Lemma lang_matches_lower hint v : lang_matches hint (lower_voice v) = lang_matches hint v.
Proof.
  unfold lang_matches, lower_voice. cbn. destruct (lang v); cbn; [|done].
  by rewrite toLowerCase_idem.
Qed.

Lemma find_lower f vs :
  (forall v, f (lower_voice v) = f v) ->
  List.find f (lower_voice <$> vs) = lower_voice <$> List.find f vs.
Proof.
  intros Hf. induction vs as [|v vs IH]; [done|]. cbn. rewrite Hf.
  destruct (f v); [done | exact IH].
Qed.

(** X19. The choice does not depend on the case of the language tags:
    on the voices with their tags in lower case, [pickVoice] returns the
    voice it returns on the voices as they are, with its tag in lower
    case. *)
Theorem pickVoice_ignores_case vs l :
  pickVoice (lower_voice <$> vs) l = lower_voice <$> pickVoice vs l.
Proof.
  unfold pickVoice.
  assert (forall hints,
            first_hinted hints (lower_voice <$> vs) = lower_voice <$> first_hinted hints vs) as H.
  { induction hints as [|h rest IH]; [done|]. cbn [first_hinted].
    rewrite find_lower by apply lang_matches_lower.
    destruct (List.find (lang_matches h) vs); [done | exact IH]. }
  rewrite H. destruct (first_hinted (voiceHints l) vs); [done|].
  cbn. apply find_lower, lang_matches_lower.
Qed.

(** ** Navigation and narration *)

Section ReaderFacts.

Variable chapters : list ChapterContent.

Lemma find_head {A} (f : A -> bool) x l : f x = true -> List.find f (x :: l) = Some x.
Proof. intros H. cbn. by rewrite H. Qed.

Lemma find_unique {A B} `{EqDecision B} (key : A -> B) (f : A -> bool) l x y :
  NoDup (key <$> l) -> x ∈ l -> List.find f l = Some y -> key y = key x -> y = x.
Proof.
  intros Hnd Hx Hf Hk. apply List.find_some in Hf as [Hy _].
  apply list_elem_of_In, list_elem_of_lookup in Hy as [j Hj].
  apply list_elem_of_lookup in Hx as [i Hi].
  assert (i = j) as ->; [|congruence].
  eapply NoDup_lookup; [exact Hnd | |]; rewrite list_lookup_fmap.
  - by rewrite Hi.
  - rewrite Hj. cbn. by rewrite Hk.
Qed.


(** X21. A click on the button of a chapter, the chapter ids being
    unique, shows that chapter and its first section (no section when the
    chapter has none). *)
Theorem click_chapter_shows_first_section item u :
  item ∈ chapters -> NoDup (chapter_id <$> chapters) ->
  chapter_of chapters (click_chapter item u) = Some item /\
  section_of chapters (click_chapter item u) = sections item !! 0%nat.
Proof.
  intros Hin Hnd.
  assert (chapter_of chapters (click_chapter item u) = Some item) as Hc.
  { unfold chapter_of, click_chapter. cbn [chapterId set_selection].
    destruct (List.find _ chapters) as [c|] eqn:Hf.
    - f_equal. eapply (find_unique chapter_id); [exact Hnd | exact Hin | exact Hf |].
      apply List.find_some in Hf as [_ Heq]. by apply Z.eqb_eq in Heq.
    - eapply List.find_none in Hf; [|by apply list_elem_of_In]. cbn in Hf.
      by rewrite Z.eqb_refl in Hf. }
  split; [done|]. unfold section_of. rewrite Hc.
  unfold click_chapter. cbn [sectionId set_selection].
  destruct (sections item) as [|s rest]; [done|]. cbn [lookup list_lookup].
  by rewrite find_head by apply String.eqb_refl.
Qed.

(** X22. A click on the button of a section of the chapter shown, the
    section ids of the chapter being unique, keeps the chapter and shows
    that section. *)
Theorem click_section_shows_section item u c :
  chapter_of chapters u = Some c -> item ∈ sections c ->
  NoDup (section_id <$> sections c) ->
  chapter_of chapters (click_section item u) = Some c /\
  section_of chapters (click_section item u) = Some item.
Proof.
  intros Hc Hin Hnd.
  assert (chapter_of chapters (click_section item u) = Some c) as Hc' by done.
  split; [done|]. unfold section_of. rewrite Hc'.
  unfold click_section. cbn [sectionId set_selection].
  destruct (List.find _ (sections c)) as [s|] eqn:Hf.
  - f_equal. eapply (find_unique section_id); [exact Hnd | exact Hin | exact Hf |].
    apply List.find_some in Hf as [_ Heq]. by apply String.eqb_eq in Heq.
  - eapply List.find_none in Hf; [|by apply list_elem_of_In]. cbn in Hf.
    by rewrite String.eqb_refl in Hf.
Qed.

(** X23. The first render shows the first chapter and its first
    section; with no chapter at all it shows neither. *)
Theorem first_render_shows_first_chapter window synthesis :
  chapter_of chapters (first_render chapters window synthesis) = chapters !! 0%nat /\
  section_of chapters (first_render chapters window synthesis)
  = match chapters !! 0%nat with
    | Some c => sections c !! 0%nat
    | None => None
    end.
Proof.
  unfold section_of, chapter_of, first_render, initial_chapterId, initial_sectionId.
  cbn [chapterId sectionId].
  destruct chapters as [|c rest]; [done|]. cbn [lookup list_lookup].
  rewrite find_head by apply Z.eqb_refl. split; [done|].
  destruct (sections c) as [|s ss]; [done|]. cbn [lookup list_lookup].
  by rewrite find_head by apply String.eqb_refl.
Qed.

Lemma step_keeps_speaking_agrees act u :
  speaking_agrees u -> speaking_agrees (step chapters act u).
Proof.
  unfold speaking_agrees. intros H.
  destruct act; cbn [step]; try done.
  - unfold click_narration, stopNarration, handleNarration.
    destruct (isSpeaking u) eqn:Hsp.
    + destruct (speech_window u); cbn [negb]; [|by rewrite Hsp].
      destruct (speechSynthesis u) eqn:Hq; [|by rewrite Hq, Hsp].
      cbn. split; [lia | done].
    + destruct (section_of chapters u); [|by rewrite Hsp].
      destruct (speech_window u); cbn [negb]; [|by rewrite Hsp].
      destruct (speechSynthesis u) eqn:Hq; [|by rewrite Hq, Hsp].
      cbn. split; [lia | done].
  - unfold syncVoices. by destruct (speechSupported u), (length available =? 0)%nat.
  - unfold utterance_done. destruct (speechSynthesis u) as [q|] eqn:Hq; [|by rewrite Hq].
    cbn. destruct H as [Hlen _]. split; [|done]. destruct q; cbn in *; lia.
  - unfold cancelled_utterance_event. cbn.
    destruct (speechSynthesis u); [|done]. destruct H as [Hlen _]. by split.
Qed.

(** X24. Narration never queues up: from a state in which the engine
    holds at most one utterance, and holds one if the component says it
    speaks, every sequence of clicks, language changes, voice updates and
    utterance events (late events of cancelled utterances included) leads
    to such a state. *)
Theorem speaking_agrees_invariant acts u :
  speaking_agrees u -> speaking_agrees (run chapters acts u).
Proof.
  revert u. induction acts as [|act acts IH]; intros u Hu; [done|].
  cbn. apply IH. by apply step_keeps_speaking_agrees.
Qed.

Lemma step_keeps_voices act u : voices u <> [] -> voices (step chapters act u) <> [].
Proof.
  intros Hv. destruct act; cbn [step]; try done.
  - unfold click_narration, stopNarration, handleNarration.
    destruct (isSpeaking u), (section_of chapters u), (speech_window u), (speechSynthesis u);
      done.
  - unfold syncVoices. destruct (speechSupported u); [|done]. destruct available; done.
  - unfold utterance_done. by destruct (speechSynthesis u).
Qed.

(** X25. Voices are never forgotten: once the component knows a
    non-empty list of voices, no sequence of actions empties it (an empty
    list reported by the platform is ignored). *)
Theorem voices_never_emptied acts u :
  voices u <> [] -> voices (run chapters acts u) <> [].
Proof.
  revert u. induction acts as [|act acts IH]; intros u Hu; [done|].
  cbn. apply IH. by apply step_keeps_voices.
Qed.

(** X26. Narration replaces, it does not queue: with a section shown
    and a speech engine, [handleNarration] leaves exactly one utterance in
    the engine, whatever it held, and [stopNarration] leaves none; two
    clicks on the narration button from silence bring the component and
    the engine back to silence with everything else unchanged. *)
Theorem narration_replaces_queue u s queue :
  section_of chapters u = Some s -> speech_window u = true ->
  speechSynthesis u = Some queue ->
  speechSynthesis (handleNarration chapters u) = Some [utterance_for s u] /\
  isSpeaking (handleNarration chapters u) = true /\
  speechSynthesis (stopNarration u) = Some [] /\
  isSpeaking (stopNarration u) = false /\
  (isSpeaking u = false ->
   click_narration chapters (click_narration chapters u) = set_speech false [] u).
Proof.
  intros Hs Hw Hq.
  assert (handleNarration chapters u = set_speech true [utterance_for s u] u) as Hh.
  { unfold handleNarration. by rewrite Hs, Hw, Hq. }
  assert (stopNarration u = set_speech false [] u) as Hst.
  { unfold stopNarration. by rewrite Hw, Hq. }
  rewrite Hh, Hst. split_and!; try done.
  intros Hsp. unfold click_narration at 2. rewrite Hsp, Hh.
  unfold click_narration. cbn [isSpeaking set_speech].
  unfold stopNarration. cbn. by rewrite Hw.
Qed.

Lemma handleNarration_unsupported u : speechSupported u = false -> handleNarration chapters u = u.
Proof.
  unfold speechSupported, handleNarration. intros Hs.
  destruct (section_of chapters u); [|done].
  destruct (speech_window u); [|done].
  destruct (speechSynthesis u); [|done]. by rewrite bool_decide_eq_true_2 in Hs.
Qed.

Lemma step_without_speech act u :
  speechSupported u = false -> isSpeaking u = false ->
  speechSupported (step chapters act u) = false /\
  isSpeaking (step chapters act u) = false /\
  voices (step chapters act u) = voices u.
Proof.
  intros Hs Hsp. destruct act; cbn [step]; try done.
  - unfold click_narration. by rewrite Hsp, handleNarration_unsupported.
  - by rewrite Hs.
  - unfold utterance_done. destruct (speechSynthesis u) eqn:Hq; [|done].
    unfold speechSupported in *. rewrite Hq in Hs. cbn.
    rewrite bool_decide_eq_true_2, andb_true_r in Hs by done.
    by rewrite Hs.
Qed.

(** X27. Without speech support nothing ever speaks: if the page has no
    window or no speech engine and the component is silent, then after
    any sequence of actions it is still silent and knows the same
    voices. *)
Theorem no_speech_support_no_narration acts u :
  speechSupported u = false -> isSpeaking u = false ->
  isSpeaking (run chapters acts u) = false /\
  voices (run chapters acts u) = voices u.
Proof.
  revert u. induction acts as [|act acts IH]; intros u Hs Hsp; [done|].
  destruct (step_without_speech act u Hs Hsp) as (Hs' & Hsp' & Hv).
  change (run chapters (act :: acts) u) with (run chapters acts (step chapters act u)).
  destruct (IH _ Hs' Hsp') as (? & ?). split; congruence.
Qed.

Lemma startsWith_nonempty l hint :
  hint <> EmptyString -> startsWith (toLowerCase l) (toLowerCase hint) = true ->
  l <> EmptyString.
Proof. intros Hh Hp ->. by destruct hint. Qed.

(** X28. The utterance always carries a language: the tag of the voice
    picked, which is one of the known voices and is never empty, or else
    [ar-SA] for Arabic and [en-IN] for every other language. *)
Theorem utterance_language s u :
  let ut := utterance_for s u in
  (forall v, utterance_voice ut = Some v ->
     v ∈ voices u /\ lang v = Some (utterance_lang ut)) /\
  (utterance_voice ut = None ->
     utterance_lang ut = match language u with ar => "ar-SA" | _ => "en-IN" end%string) /\
  utterance_lang ut <> EmptyString.
Proof.
  cbv zeta. unfold utterance_for. cbn [utterance_voice utterance_lang].
  destruct (pickVoice (voices u) (language u)) as [v|] eqn:Hp.
  - destruct (pickVoice_matching_aux _ _ _ Hp) as (Hin & hint & Hhint & Hm).
    unfold lang_matches in Hm. destruct (lang v) as [l|] eqn:Hl; [|done]. cbn [default].
    split_and!; try done.
    + by intros v' [= <-].
    + eapply startsWith_nonempty; [|exact Hm].
      destruct Hhint as [Hhint| ->]; [|done].
      destruct (language u); cbn in Hhint;
        repeat (apply elem_of_cons in Hhint as [->|Hhint]; [done|]);
        by apply elem_of_nil in Hhint.
  - split_and!; try done. by destruct (language u).
Qed.

End ReaderFacts.

(** ** The [voiceschanged] effect *)

Lemma existsb_eqb_false f l : f ∉ l -> existsb (Nat.eqb f) l = false.
Proof.
  induction l as [|g l IH]; [done|]. intros H.
  apply not_elem_of_cons in H as [Hne H]. cbn.
  rewrite IH by done. by apply Nat.eqb_neq in Hne as ->.
Qed.

Lemma filter_other f l : f ∉ l -> List.filter (fun g => negb (Nat.eqb g f)) l = l.
Proof.
  induction l as [|g l IH]; [done|]. intros H.
  apply not_elem_of_cons in H as [Hne H]. cbn.
  assert (g <> f) as Hne' by congruence.
  apply Nat.eqb_neq in Hne' as ->. cbn. by rewrite IH.
Qed.

Lemma filter_app_self f l : f ∉ l -> List.filter (fun g => negb (Nat.eqb g f)) (l ++ [f]) = l.
Proof.
  intros H. rewrite List.filter_app, filter_other by done. cbn.
  by rewrite Nat.eqb_refl, app_nil_r.
Qed.

Lemma handler_eqb_eq h1 h2 : handler_eqb h1 h2 = true <-> h1 = h2.
Proof.
  destruct h1, h2; cbn; try (split; done).
  rewrite Nat.eqb_eq. split; congruence.
Qed.

(** X29. Mounting and unmounting leave the speech engine as it was: for
    a fresh [syncVoices], on a target that has [removeEventListener] if it
    has [addEventListener] and whose [onvoiceschanged] is not [undefined],
    the effect makes [voiceschanged] events call [syncVoices], and its
    cleanup, run on the target as the effect left it, gives the target
    back as it was before. *)
Theorem voices_effect_cleanup_restores self available u t :
  speechSupported u = true ->
  ~ receives t self ->
  onvoiceschanged t <> HUndefined ->
  (has_addEventListener t = true -> has_removeEventListener t = true) ->
  exists u' t' c,
    voices_effect self available u t = (u', t', c) /\
    receives t' self /\
    run_cleanup c t' = t.
Proof.
  intros Hs Hfresh Hun Hrm. unfold voices_effect. rewrite Hs. cbn [negb].
  assert (self ∉ listeners t) as Hl by (intros H; apply Hfresh; by left).
  destruct (has_addEventListener t) eqn:Hadd.
  - eexists _, _, _. split; [reflexivity|].
    unfold addEventListener. rewrite existsb_eqb_false by done. split.
    + left. cbn. set_solver.
    + cbn. rewrite Hrm by done. unfold removeEventListener. cbn.
      rewrite filter_app_self by done. destruct t; cbn in *. by subst.
  - eexists _, _, _. split; [reflexivity|]. split; [by right|].
    cbn. rewrite Nat.eqb_refl. destruct t as [? ? ? []]; cbn in *; by subst.
Qed.

(** X30. The cleanup touches nothing but its own [syncVoices]: whatever
    happened to the target in between, every other listener stays, and an
    [onvoiceschanged] handler that another script has set is left in
    place. *)
Theorem cleanup_spares_other_handlers self available u t0 t g :
  g <> self ->
  let c := (voices_effect self available u t0).2 in
  (g ∈ listeners t -> g ∈ listeners (run_cleanup c t)) /\
  (onvoiceschanged t = HFunction g -> onvoiceschanged (run_cleanup c t) = HFunction g).
Proof.
  intros Hg. cbv zeta. unfold voices_effect.
  destruct (negb (speechSupported u)); [done|].
  destruct (has_addEventListener t0); cbn [snd run_cleanup].
  - destruct (has_removeEventListener t); [|done]. split; [|done].
    intros Hin. cbn. apply list_elem_of_In, List.filter_In.
    split; [by apply list_elem_of_In|]. by apply Nat.eqb_neq in Hg as ->.
  - destruct (handler_eqb (onvoiceschanged t) (HFunction self)) eqn:Heq; [|done].
    split; [done|]. apply handler_eqb_eq in Heq. congruence.
Qed.

Lemma voices_effect_cleanup_restores_witness :
  exists u' t' c,
    voices_effect 1 sample_voices sample_page legacy_target = (u', t', c) /\
    receives t' 1 /\
    run_cleanup c t' = legacy_target.
Proof.
  apply (voices_effect_cleanup_restores 1 sample_voices sample_page legacy_target);
    try done.
  intros [H|H]; [by apply elem_of_nil in H | discriminate].
Defined.

(** After the effect on the legacy target, another script sets its own
    handler [9]. *)
Lemma cleanup_spares_other_handlers_witness :
  (9%nat ∈ listeners (set_onvoiceschanged (HFunction 9) legacy_target) ->
   9%nat ∈ listeners (run_cleanup (voices_effect 1 [] sample_page legacy_target).2
                        (set_onvoiceschanged (HFunction 9) legacy_target))) /\
  (onvoiceschanged (set_onvoiceschanged (HFunction 9) legacy_target) = HFunction 9 ->
   onvoiceschanged (run_cleanup (voices_effect 1 [] sample_page legacy_target).2
                      (set_onvoiceschanged (HFunction 9) legacy_target))
   = HFunction 9).
Proof.
  apply (cleanup_spares_other_handlers 1 [] sample_page legacy_target
           (set_onvoiceschanged (HFunction 9) legacy_target) 9).
  discriminate.
Defined.

(** The extras on the sample voices and chapters. *)

Ltac elem_cases H :=
  repeat (apply elem_of_cons in H as [->|H]; [try reflexivity|]);
  try (by apply elem_of_nil in H).

(** Arabic on the sample voices: the first hint finds [AR-sa]. *)
Lemma pickVoice_returns_matching_voice_witness :
  voice_ar_SA ∈ sample_voices /\
  exists hint, (hint ∈ voiceHints ar \/ hint = "en"%string) /\
               lang_matches hint voice_ar_SA = true.
Proof. apply (pickVoice_returns_matching_voice sample_voices ar voice_ar_SA). reflexivity. Defined.

(** English on the sample voices: no voice for [en-IN], and [en-GB] is
    the tag of the second voice. *)
Lemma pickVoice_prefers_earlier_hint_witness : pickVoice sample_voices en = Some voice_en_GB.
Proof.
  apply (pickVoice_prefers_earlier_hint sample_voices en ["en-IN"%string] "en-GB"
           ["en-US"%string] [voice_untagged] voice_en_GB [voice_ar_EG; voice_ar_SA]);
    try reflexivity.
  - intros h v' Hh Hv. elem_cases Hh. unfold sample_voices in Hv. elem_cases Hv.
  - intros v' Hv. elem_cases Hv.
Defined.


Lemma click_chapter_shows_first_section_witness :
  chapter_of sample_chapters (click_chapter chapter_two sample_page) = Some chapter_two /\
  section_of sample_chapters (click_chapter chapter_two sample_page)
  = sections chapter_two !! 0%nat.
Proof.
  apply (click_chapter_shows_first_section sample_chapters chapter_two sample_page).
  - by repeat constructor.
  - apply (bool_decide_unpack _). vm_compute. exact I.
Defined.

Lemma click_section_shows_section_witness :
  chapter_of sample_chapters (click_section section_two sample_page) = Some chapter_one /\
  section_of sample_chapters (click_section section_two sample_page) = Some section_two.
Proof.
  apply (click_section_shows_section sample_chapters section_two sample_page chapter_one).
  - reflexivity.
  - by repeat constructor.
  - apply (bool_decide_unpack _). vm_compute. exact I.
Defined.

(** Play, stop, the late event of the cancelled utterance, play again,
    and the end of the utterance. *)
Lemma speaking_agrees_invariant_witness :
  speaking_agrees
    (run sample_chapters
       [ClickNarration; ClickNarration; CancelledUtteranceEvent; ClickNarration; UtteranceDone]
       sample_page).
Proof.
  apply (speaking_agrees_invariant sample_chapters
           [ClickNarration; ClickNarration; CancelledUtteranceEvent; ClickNarration;
            UtteranceDone] sample_page).
  split; [cbn; lia | discriminate].
Defined.

(** The platform reports the sample voices, then an empty list. *)
Lemma voices_never_emptied_witness :
  voices (run sample_chapters [VoicesChanged []; ClickNarration]
            (syncVoices sample_voices sample_page)) <> [].
Proof.
  apply (voices_never_emptied sample_chapters [VoicesChanged []; ClickNarration]
           (syncVoices sample_voices sample_page)).
  discriminate.
Defined.

Lemma narration_replaces_queue_witness :
  speechSynthesis (handleNarration sample_chapters sample_page)
  = Some [utterance_for section_one sample_page] /\
  isSpeaking (handleNarration sample_chapters sample_page) = true /\
  speechSynthesis (stopNarration sample_page) = Some [] /\
  isSpeaking (stopNarration sample_page) = false /\
  (isSpeaking sample_page = false ->
   click_narration sample_chapters (click_narration sample_chapters sample_page)
   = set_speech false [] sample_page).
Proof.
  apply (narration_replaces_queue sample_chapters sample_page section_one []); reflexivity.
Defined.

(** A page whose browser has no speech engine. *)
Lemma no_speech_support_no_narration_witness :
  isSpeaking (run sample_chapters [ClickNarration; VoicesChanged sample_voices]
                (first_render sample_chapters true None)) = false /\
  voices (run sample_chapters [ClickNarration; VoicesChanged sample_voices]
            (first_render sample_chapters true None))
  = voices (first_render sample_chapters true None).
Proof.
  apply (no_speech_support_no_narration sample_chapters
           [ClickNarration; VoicesChanged sample_voices]
           (first_render sample_chapters true None)); reflexivity.
Defined.
